(** * meliae: the object scanner and dumper

    A shallow embedding of the Python sources of the scanner
    ([memory_dump/scanner.py]) and of the pure-Python reference serializer
    that the test-suite keeps next to the compiled one
    ([meliae/tests/test__scanner.py]), with the properties the specification
    states about them.

    Conventions.
    - The sources run on Python 2 and 3 through [six]; the embedding is
      their Python 3 reading ([six.text_type] is [str], [six.string_types]
      is [(str,)], [_str_to_json] is [_text_to_json]).
    - A Python [str] that the serializer produces is a [list ascii]
      (every character it emits is ASCII); [''.join(out)] is [concat].
    - Python 3 text (a [str] held by the scanned program) is a list of code
      points, each an [N] below [0x110000]; a [bytes] value is a
      [list Byte.byte].
    - A Python reference is the identity of the object it points to
      ([id(obj)], a [Z]); the heap maps identities to object contents. *)

From Stdlib Require Import ZArith NArith Ascii String List Lia.
From Stdlib Require Import DecimalString DecimalZ DecimalPos.
From stdpp Require Import gmap list.

Open Scope Z_scope.

(** ** Strings produced by the serializer *)

Abbreviation str := (list ascii).
Abbreviation text := (list N).

Definition lit (s : string) : str := list_ascii_of_string s.

Definition dquote : ascii := "034"%char.
Definition backslash : ascii := "\"%char.
Definition newline : ascii := "010"%char.

(** [''.join(out)] *)
Definition join (out : list str) : str := concat out.

Module Fmt.

(** One lowercase hexadecimal digit. *)
Definition hex_digit (d : N) : ascii :=
  if (d <? 10)%N then ascii_of_N (48 + d) else ascii_of_N (87 + d).

Fixpoint hex_digits_aux (fuel : nat) (n : N) (acc : str) : str :=
  match fuel with
  | O => acc
  | S fuel' =>
      let acc' := hex_digit (n mod 16) :: acc in
      if (n / 16 =? 0)%N then acc' else hex_digits_aux fuel' (n / 16) acc'
  end.

(** ['%x' % n]: the digits of [n], most significant first, no padding.
    [n] has [N.size n] binary digits, so that many rounds (and one more for
    [0]) always reach the leading digit. *)
Definition format_x (n : N) : str :=
  hex_digits_aux (S (N.to_nat (N.size n))) n [].

Definition zero_pad (width : nat) (s : str) : str :=
  repeat "0"%char (width - length s) ++ s.

(** ['%04x' % n] *)
Definition format_04x (n : N) : str := zero_pad 4 (format_x n).

(** ['%d' % z] *)
Definition format_d (z : Z) : str := lit (NilZero.string_of_int (Z.to_int z)).

(** [binascii.b2a_hex]: two lowercase digits per byte. *)
Definition b2a_hex (bs : list N) : str :=
  flat_map (fun b => [hex_digit (b / 16); hex_digit (b mod 16)])%N bs.

(** [c.encode('utf_16_be')] for one code point outside the surrogate
    block: one big-endian 16-bit unit in the basic plane, a surrogate pair
    above it.  (The codec raises on a lone surrogate; the serializer only
    calls it on code points above [0xffff].) *)
Definition utf_16_be (c : N) : list N :=
  (if c <? 0x10000 then [c / 256; c mod 256]
   else
     let c' := c - 0x10000 in
     let hi := 0xD800 + c' / 0x400 in
     let lo := 0xDC00 + c' mod 0x400 in
     [hi / 256; hi mod 256; lo / 256; lo mod 256])%N.

(** Exactly four hexadecimal digits, most significant first. *)
Definition four_digits (n : N) : str :=
  [hex_digit (n / 4096); hex_digit (n / 256 mod 16);
   hex_digit (n / 16 mod 16); hex_digit (n mod 16)]%N.

End Fmt.

Module Json.
Import Fmt.

(** [simple_escapes]: the code points of the backslash, the slash and the
    double quote. *)
Definition simple_escapes : list N := [92; 47; 34]%N.

Definition N_in (c : N) (l : list N) : bool := existsb (N.eqb c) l.

(** The body of the [for] loop of [_bytes_to_json]: what is appended to
    [out] for the byte [c]. *)
Definition bytes_piece (c : N) : str :=
  if ((c <=? 31) || (126 <? c))%N then lit "\u" ++ format_04x c
  else if N_in c simple_escapes then [backslash; ascii_of_N c]
  else [ascii_of_N c].

Definition _bytes_to_json (s : list Byte.byte) : str :=
  let out := [[dquote]] in
  let out := fold_left (fun out b => out ++ [bytes_piece (Byte.to_N b)]) s out in
  let out := out ++ [[dquote]] in
  join out.

(** The body of the [for] loop of [_text_to_json]; its third test, of [c]
    against the string of the backslash, the slash and the double quote, is
    the test against [simple_escapes]. *)
Definition text_piece (c : N) : str :=
  if (0xffff <? c)%N then
    let surrogate := b2a_hex (utf_16_be c) in
    lit "\u" ++ take 4 surrogate ++ lit "\u" ++ drop 4 surrogate
  else if ((c <=? 0x1f) || (0x7e <? c))%N then lit "\u" ++ format_04x c
  else if N_in c simple_escapes then [backslash; ascii_of_N c]
  else [ascii_of_N c].

Definition _text_to_json (u : text) : str :=
  let out := [[dquote]] in
  let out := fold_left (fun out c => out ++ [text_piece c]) u out in
  let out := out ++ [[dquote]] in
  join out.

(** [_str_to_json] on Python 3. *)
Definition _str_to_json : text -> str := _text_to_json.

(** The escaping rule for one byte, in the words of the specification: a
    byte up to 31 or above 126 becomes a backslash-u escape with two zeros
    and the byte's two hexadecimal digits; the backslash, the slash and the
    double quote are preceded by a backslash; every other byte stands for
    itself. *)
Definition spec_byte_escape (b : Byte.byte) : str :=
  let c := Byte.to_N b in
  if ((c <=? 31) || (126 <? c))%N then
    lit "\u00" ++ [hex_digit (c / 16); hex_digit (c mod 16)]%N
  else if (N.eqb c 92 || N.eqb c 47 || N.eqb c 34)%N then
    [backslash; ascii_of_byte b]
  else [ascii_of_byte b].

(** The surrogate pair of a code point above the basic plane. *)
Definition high_surrogate (c : N) : N := (0xD800 + (c - 0x10000) / 0x400)%N.
Definition low_surrogate (c : N) : N := (0xDC00 + (c - 0x10000) mod 0x400)%N.

End Json.

Module Reader.
Import Json.

(** Modelled from the spec: the downstream reader of the dump (the loader,
    which is not part of these sources) decodes a [value] as a JSON string:
    an opening and a closing double quote, a backslash followed by one of
    the JSON escape characters, a backslash-u escape followed by four
    hexadecimal digits naming one UTF-16 code unit, and a high surrogate
    unit directly followed by a low one naming one code point above the
    basic plane. *)
Definition hex_val (a : ascii) : option N :=
  let n := N_of_ascii a in
  (if (48 <=? n) && (n <=? 57) then Some (n - 48)
   else if (97 <=? n) && (n <=? 102) then Some (n - 87)
   else if (65 <=? n) && (n <=? 70) then Some (n - 55)
   else None)%N.

Definition hex4 (a b c d : ascii) : option N :=
  match hex_val a, hex_val b, hex_val c, hex_val d with
  | Some x, Some y, Some z, Some w => Some (((x * 16 + y) * 16 + z) * 16 + w)%N
  | _, _, _, _ => None
  end.

(** The character a one-letter escape stands for. *)
Definition escape_char (e : ascii) : option N :=
  let n := N_of_ascii e in
  (if (n =? 34) || (n =? 92) || (n =? 47) then Some n
   else if n =? 98 then Some 8
   else if n =? 102 then Some 12
   else if n =? 110 then Some 10
   else if n =? 114 then Some 13
   else if n =? 116 then Some 9
   else None)%N.

(** Modelled from the spec: the reader's pass over a string body, up to
    and including its closing quote, after which nothing may follow; it
    gives the UTF-16 code units the body names. *)
Fixpoint units (s : str) : option (list N) :=
  match s with
  | [] => None
  | x :: rest =>
      if Ascii.eqb x dquote then
        match rest with [] => Some [] | _ :: _ => None end
      else if Ascii.eqb x backslash then
        match rest with
        | [] => None
        | e :: rest' =>
            if Ascii.eqb e "u" then
              match rest' with
              | a :: b :: c :: d :: rest'' =>
                  match hex4 a b c d, units rest'' with
                  | Some h, Some us => Some (h :: us)
                  | _, _ => None
                  end
              | _ => None
              end
            else
              match escape_char e, units rest' with
              | Some n, Some us => Some (n :: us)
              | _, _ => None
              end
        end
      else
        match units rest with
        | Some us => Some (N_of_ascii x :: us)
        | None => None
        end
  end.

(** Code units put in front of what the rest of the string reads as. *)
Definition cons_units (us : list N) (r : option (list N)) : option (list N) :=
  match r with Some vs => Some (us ++ vs) | None => None end.

Definition is_high (u : N) : bool := ((0xD800 <=? u) && (u <=? 0xDBFF))%N.
Definition is_low (u : N) : bool := ((0xDC00 <=? u) && (u <=? 0xDFFF))%N.

(** Modelled from the spec: the reader's pairing of surrogates; a high
    surrogate unit directly followed by a low one is one code point, any
    other unit is the code point of its own value. *)
Fixpoint utf16_decode (us : list N) : text :=
  match us with
  | [] => []
  | hi :: rest =>
      match rest with
      | lo :: rest' =>
          if is_high hi && is_low lo
          then (0x10000 + (hi - 0xD800) * 0x400 + (lo - 0xDC00))%N :: utf16_decode rest'
          else hi :: utf16_decode rest
      | [] => [hi]
      end
  end.

(** Modelled from the spec: the reader's decoding of a [value] string. *)
Definition json_decode (s : str) : option text :=
  match s with
  | q :: body =>
      if Ascii.eqb q dquote then utf16_decode <$> units body else None
  | [] => None
  end.

(** The UTF-16 code units that name one code point. *)
Definition utf16_units (c : N) : list N :=
  if (0xffff <? c)%N then [high_surrogate c; low_surrogate c] else [c].

(** No high-surrogate code point is directly followed by a low-surrogate
    one. *)
Fixpoint pair_free (u : text) : bool :=
  match u with
  | [] => true
  | a :: rest =>
      match rest with
      | b :: _ => negb (is_high a && is_low b) && pair_free rest
      | [] => true
      end
  end.

Definition code_point (c : N) : Prop := (c < 0x110000)%N.

(** A byte string is read back from the code points below 256. *)
Definition bytes_of_text (u : text) : option (list Byte.byte) :=
  mapM Byte.of_N u.

End Reader.

(** ** The scanned program's objects *)

(** What the serializer can observe of the value an object holds: the
    branches of the [isinstance]/[is] chain of [_py_dump_json_obj] and of
    the referent test of [py_dump_object_info]. *)
Inductive payload :=
| PBytes (b : list Byte.byte)
| PText (u : text)
| PBool (b : bool)
| PInt (n : Z)
| PFrame (co_name : str)
| PCode
| PNone
| PObject
| POther.

(** The objects are those on which [len(obj)] returns whenever [obj] has a
    [__len__] attribute, as it does on the instances the test-suite dumps.
    On a class that defines [__len__] ([dict] itself, say) the attribute is
    there and [len] raises: such an object is not one of these, and
    [_py_dump_json_obj] has no error of its own below. *)
Record pyobj := {
  ob_type_name : text;       (* klass.__name__ *)
  ob_name : option text;     (* getattr(obj, '__name__', None) *)
  ob_len : option Z;         (* len(obj), when obj has __len__ *)
  ob_payload : payload;
  ob_referents : list Z;     (* gc.get_referents(obj), by identity *)
  ob_hashable : bool;        (* hash(obj) does not raise TypeError *)
  ob_has_gc : bool;          (* the type carries the collector's header *)
  ob_basicsize : N;          (* the size the runtime allocates for obj *)
  ob_sizeof : option Z       (* obj.__sizeof__(), when obj defines it *)
}.

Abbreviation heap := (gmap Z pyobj).

(** [gc.get_referents(obj)] *)
Definition get_referents (h : heap) (obj : Z) : list Z :=
  match h !! obj with
  | Some o => ob_referents o
  | None => []
  end.

(** Every reference held by a live object points to a live object. *)
Definition heap_closed (h : heap) : Prop :=
  map_Forall (fun _ o => Forall (fun r => r ∈ dom h) (ob_referents o)) h.

Definition reachable (h : heap) : Z -> Z -> Prop :=
  rtc (fun a b => b ∈ get_referents h a).

(** ** The object sizer *)

Module Sizer.

(** The two size models an override is registered for. *)
Inductive width := Narrow | Wide.

(** The build the scanner runs on: its size model, and the constant
    [_scanner._gc_head_size] that the tests read from the compiled scanner
    (the size of the collector's header), which is left open. *)
Record platform := {
  plat_width : width;
  _gc_head_size : N
}.

(** Modelled from the spec: the platform word size, [_scanner._word_size]
    in the tests: four bytes on the narrow model and eight on the wide one
    ([test_size_of_special] expects 200 words of the 800 and 1600 bytes its
    32-bit and 64-bit functions return). *)
Definition _word_size (p : platform) : Z :=
  match plat_width p with Narrow => 4 | Wide => 8 end.

(** [sys.maxsize] *)
Definition sys_maxsize (p : platform) : Z := 2 ^ (8 * _word_size p - 1) - 1.

(** A registered size function, called with the object. *)
Definition size_fn := pyobj -> Z.

Abbreviation registry := (gmap text (option size_fn * option size_fn)).

(** Modelled from the spec: the size registry of the compiled scanner
    ([_scanner.add_special_size], outside these sources).  Registering
    installs the pair for the type name, replacing any earlier one;
    registering two null functions clears it. *)
Definition register (type_name : text) (narrow_fn wide_fn : option size_fn)
    (reg : registry) : registry :=
  match narrow_fn, wide_fn with
  | None, None => delete type_name reg
  | _, _ => <[type_name := (narrow_fn, wide_fn)]> reg
  end.

Definition add_special_size := register.

(** Modelled from the spec: [lookup(type_name, width)], the function
    registered for the type name on that size model, if any. *)
Definition lookup_size (reg : registry) (type_name : text) (w : width)
    : option size_fn :=
  match reg !! type_name with
  | Some (narrow_fn, wide_fn) =>
      match w with Narrow => narrow_fn | Wide => wide_fn end
  | None => None
  end.

(** Modelled from the spec: [_scanner.size_of] (compiled, outside these
    sources), step by step as the specification of the object sizer has
    it.  Step 2, the default content size: the self-reporting hook when
    the object has one and its result is not negative, the generic size of
    the allocation otherwise. *)
Definition default_content (o : pyobj) : Z :=
  match ob_sizeof o with
  | Some v => if 0 <=? v then v else Z.of_N (ob_basicsize o)
  | None => Z.of_N (ob_basicsize o)
  end.

(** Modelled from the spec: step 1 of [size_of], the result of the
    registered function when it is not negative (-1 declines, and a negative
    size is an anomaly recovered by the default computation). *)
Definition content_size (p : platform) (reg : registry) (o : pyobj) : Z :=
  match lookup_size reg (ob_type_name o) (plat_width p) with
  | Some f => let v := f o in if 0 <=? v then v else default_content o
  | None => default_content o
  end.

(** Modelled from the spec: step 3 of [size_of], the header of the memory
    manager, for the objects that carry one. *)
Definition overhead (p : platform) (o : pyobj) : Z :=
  if ob_has_gc o then Z.of_N (_gc_head_size p) else 0.

(** Modelled from the spec: step 4 of [size_of], up to a multiple of the
    word size.  The step is the specification's: the tests of these sources
    compare the compiled sizer with [sys.getsizeof], which does not round
    ([sys_getsizeof] and [assertSizeOf] below). *)
Definition round_up_word (p : platform) (n : Z) : Z :=
  (n + _word_size p - 1) / _word_size p * _word_size p.

(** Modelled from the spec: [_scanner.size_of], the four steps together. *)
Definition size_of (p : platform) (reg : registry) (o : pyobj) : Z :=
  round_up_word p (content_size p reg o + overhead p o).

(** The default computation: what [size_of] is with no override. *)
Definition default_size (p : platform) (o : pyobj) : Z :=
  round_up_word p (default_content o + overhead p o).

(** The generic computation: no override and no hook. *)
Definition generic_size (p : platform) (o : pyobj) : Z :=
  round_up_word p (Z.of_N (ob_basicsize o) + overhead p o).

End Sizer.

Import Sizer.

(** ** The sizer the tests ask for *)

(** [obj.__sizeof__()]: the hook of the object, and [object.__sizeof__],
    the size of the allocation, for an object that defines none. *)
Definition __sizeof__ (o : pyobj) : Z :=
  match ob_sizeof o with
  | Some v => v
  | None => Z.of_N (ob_basicsize o)
  end.

(** [sys.getsizeof(obj)], as the comments of [test__sizeof__instance] have
    it: the result of [__sizeof__], which does not include the collector's
    header, with that header added back for the objects that carry one; on a
    negative result it fails ([None] here). *)
Definition sys_getsizeof (p : platform) (o : pyobj) : option Z :=
  let v := __sizeof__ o in
  if 0 <=? v then Some (v + overhead p o) else None.


(** ** The record serializer *)

Import Fmt Json.

Inductive exn := TypeError.

(** A caller's [nodump] set: an object of its own, holding identities. *)
Record skip_set := {
  ss_id : Z;
  ss_members : gset Z
}.

(** One record pushed to the sink. *)
Record record := {
  rec_address : Z;
  rec_line : str
}.

Section Serializer.
Variable plat : platform.
Variable reg : registry.

Definition quoted (s : string) : str := [dquote] ++ lit s ++ [dquote].

(** [', "k": '] *)
Definition field (k : string) : str := lit ", " ++ quoted k ++ lit ": ".

(** [sep.join(parts)] *)
Fixpoint sep_join (sep : str) (parts : list str) : str :=
  match parts with
  | [] => []
  | [x] => x
  | x :: rest => x ++ sep ++ sep_join sep rest
  end.

Definition name_field (o : pyobj) : list str :=
  match ob_name o with
  | Some name => [field "name" ++ _str_to_json name]
  | None => []
  end.

Definition len_field (o : pyobj) : list str :=
  match ob_len o with
  | Some n => [field "len" ++ format_d n]
  | None => []
  end.

(** The [isinstance] chain: what it appends to [content]. *)
Definition value_field (o : pyobj) : list str :=
  match ob_payload o with
  | PBytes b => [field "value" ++ _bytes_to_json (take 100 b)]
  | PText u => [field "value" ++ _text_to_json (take 100 u)]
  | PBool true => [field "value" ++ quoted "True"]
  | PBool false => [field "value" ++ quoted "False"]
  | PInt n =>
      if Z.abs n <=? sys_maxsize plat
      then [field "value" ++ format_d n]
      else []
  | PFrame co_name => [field "value" ++ [dquote] ++ co_name ++ [dquote]]
  | PCode | PNone | PObject | POther => []
  end.

(** [_py_dump_json_obj(obj)], for the object [o] whose identity is
    [id_obj].  Every character is ASCII, so the final
    [.encode('UTF-8')] leaves the string as it is. *)
Definition _py_dump_json_obj (id_obj : Z) (o : pyobj) : str :=
  let content :=
    [lit "{" ++ quoted "address" ++ lit ": " ++ format_d id_obj
     ++ field "type" ++ _str_to_json (ob_type_name o)
     ++ field "size" ++ format_d (size_of plat reg o)] in
  let content := content ++ name_field o in
  let content := content ++ len_field o in
  let content := content ++ value_field o in
  let content := content ++ [field "refs" ++ lit "["] in
  let ref_strs := map format_d (ob_referents o) in
  let content := content ++ [sep_join (lit ", ") ref_strs] in
  let content := content ++ [lit "]"] in
  let content := content ++ [lit "}" ++ [newline]] in
  join content.

Variable h : heap.

(** The serialized record of the live object at [obj]. *)
Definition dump_json (obj : Z) : str :=
  match h !! obj with
  | Some o => _py_dump_json_obj obj o
  | None => []
  end.

(** *** Skip sets *)

Definition hashable (obj : Z) : bool :=
  match h !! obj with
  | Some o => ob_hashable o
  | None => true
  end.

(** [obj in nodump], for a [set] or [frozenset]: hashing an unhashable
    object raises [TypeError]; otherwise the answer is whether the identity
    is one the set was built from (the objects of a skip set are shared
    singletons, for which equality is identity). *)
Definition contains (nodump : skip_set) (obj : Z) : exn + bool :=
  if hashable obj then inr (bool_decide (obj ∈ ss_members nodump))
  else inl TypeError.

(** The guard at the head of [py_dump_object_info]: [true] when it
    returns the empty output. *)
Definition skipped (obj : Z) (nodump : option skip_set) : bool :=
  match nodump with
  | None => false
  | Some nd =>
      if bool_decide (obj = ss_id nd) then true
      else
        match contains nd obj with
        | inr true => true
        | inr false => false
        | inl TypeError => false      (* except TypeError: pass *)
        end
  end.

(** [isinstance(ref, (six.string_types, int, types.CodeType))
     or ref is None or type(ref) is object] *)
Definition no_traverse (ref : Z) : bool :=
  match h !! ref with
  | Some o =>
      match ob_payload o with
      | PText _ | PInt _ | PBool _ | PCode | PNone | PObject => true
      | PBytes _ | PFrame _ | POther => false
      end
  | None => false
  end.

(** One round of the loop over the referents; the membership test is
    not guarded here, so its [TypeError] leaves the function. *)
Definition child_step (nodump : option skip_set)
    (acc : exn + list str) (ref : Z) : exn + list str :=
  match acc with
  | inl e => inl e
  | inr child_vals =>
      if no_traverse ref then
        match nodump with
        | None => inr (child_vals ++ [dump_json ref])
        | Some nd =>
            match contains nd ref with
            | inl e => inl e
            | inr false => inr (child_vals ++ [dump_json ref])
            | inr true => inr child_vals
            end
        end
      else inr child_vals
  end.

(** No membership test of the loop over the referents raises: there is
    no skip set, or every referent the loop tests is hashable. *)
Definition referent_tests_pass (nodump : option skip_set) (refs : list Z) : Prop :=
  nodump = None \/
  Forall (fun r => no_traverse r = true -> hashable r = true) refs.

(** [py_dump_object_info] from [obj_info = _py_dump_json_obj(obj)] on: what
    runs when the guard has not returned. *)
Definition dump_unskipped (obj : Z) (nodump : option skip_set) : exn + str :=
  let obj_info := dump_json obj in
  let child_vals := [] in
  match fold_left (child_step nodump) (get_referents h obj) (inr child_vals) with
  | inl e => inl e
  | inr child_vals => inr (obj_info ++ join child_vals)
  end.

Definition py_dump_object_info (obj : Z) (nodump : option skip_set)
    : exn + str :=
  if skipped obj nodump then inr [] else dump_unskipped obj nodump.

(** *** The dumper *)

Definition record_of (obj : Z) : record :=
  {| rec_address := obj; rec_line := dump_json obj |}.

Definition in_skip_set (nodump : option skip_set) (obj : Z) : bool :=
  match nodump with
  | None => false
  | Some nd =>
      match contains nd obj with
      | inr b => b
      | inl TypeError => false
      end
  end.

(** A referent emitted right after its parent: it has no traverse function
    and is not in the skip set. *)
Definition inline_kept (nodump : option skip_set) (ref : Z) : bool :=
  no_traverse ref && negb (in_skip_set nodump ref).

(** Modelled from the spec: [_scanner.dump_object_info] (compiled, outside
    these sources).  An object that is the skip set or a member of it is
    not emitted; a failing membership test counts as not a member.  At
    depth 0 the referents are only listed in the record; at a greater depth
    the referents that have no traverse function and are not in the skip
    set are emitted right after it, as [py_dump_object_info] does. *)
Definition dump_object_info (obj : Z) (nodump : option skip_set)
    (recurse_depth : nat) : list record :=
  if skipped obj nodump then []
  else
    record_of obj ::
    match recurse_depth with
    | O => []
    | S _ => map record_of (List.filter (inline_kept nodump) (get_referents h obj))
    end.

(** [pending.pop()]: the last element. *)
Definition pop (pending : list Z) : option (Z * list Z) :=
  match rev pending with
  | [] => None
  | x :: r => Some (x, rev r)
  end.

(** One round of the loop over the referents of [next].  Modelled from the
    spec: the compact integer set [_intset.IntSet] (outside these sources)
    is a set of identities with [add] and membership; it is a [gset Z]
    here. *)
Definition push_unseen (seen : gset Z) (pending : list Z) (ref : Z) : list Z :=
  if bool_decide (ref ∈ seen) then pending else pending ++ [ref].

(** The [while pending] loop of [dump_all_referenced]; [outf] collects
    what is written. *)
Fixpoint dump_loop (fuel : nat) (pending : list Z) (seen : gset Z)
    (outf : list record) : option (list record) :=
  match fuel with
  | O => None
  | S fuel' =>
      match pop pending with
      | None => Some outf
      | Some (next, pending) =>
          let id_next := next in
          if bool_decide (id_next ∈ seen) then dump_loop fuel' pending seen outf
          else
            let seen := {[id_next]} ∪ seen in
            let outf := outf ++ dump_object_info next None 0 in
            let pending :=
              fold_left (push_unseen seen) (get_referents h next) pending in
            dump_loop fuel' pending seen outf
      end
  end.

Definition dump_all_referenced (fuel : nat) (obj : Z) : option (list record) :=
  let pending := [obj] in
  let seen : gset Z := ∅ in
  dump_loop fuel pending seen [].

(** The invariant of the loop of [dump_all_referenced], for a walk started
    at [root]: the records written are those of the identities in [seen],
    each once; everything seen or pending is reachable from [root]; [root]
    is seen or pending, and so is every referent of a seen object. *)
Definition walk_inv (root : Z) (pending : list Z) (seen : gset Z)
    (outf : list record) : Prop :=
  NoDup (map rec_address outf) /\
  (forall a, a ∈ map rec_address outf <-> a ∈ seen) /\
  (forall a, a ∈ seen \/ a ∈ pending -> reachable h root a) /\
  (root ∈ seen \/ root ∈ pending) /\
  (forall a b, a ∈ seen -> b ∈ get_referents h a -> b ∈ seen \/ b ∈ pending).

(** [dump_gc_objects(outf, recurse_depth)].  [precached] is the list the
    function builds of the objects every program shares ([None], the
    booleans, the small integers, the one-character strings, the built-in
    types, common interned strings), [nodump_id] the identity of the
    [frozenset] made of it, and [gc_objects] is [gc.get_objects()].  The
    sink is the list of the records written (opening the file a string
    names is left out).  The list is the one of the running interpreter and
    may name an object more than once (the function adds [dict] after the
    types of [types], where it already is, under two names); each is dumped
    every time it is named.  Membership in the [frozenset] is taken by
    identity, as in [contains]: an object that is equal to a listed one
    without being it is not told apart from a member by the set itself, and
    is let through here. *)
Definition dump_gc_objects (precached : list Z) (nodump_id : Z)
    (gc_objects : list Z) (recurse_depth : nat) : list record :=
  let nodump := precached in
  let outf :=
    fold_left (fun outf obj => outf ++ dump_object_info obj None 0) nodump [] in
  let nodump := {| ss_id := nodump_id; ss_members := list_to_set nodump |} in
  fold_left
    (fun outf obj => outf ++ dump_object_info obj (Some nodump) recurse_depth)
    gc_objects outf.

End Serializer.

(** ** Objects and heaps of the test-suite *)

Module Examples.

Definition text_of (s : string) : text := map N_of_ascii (list_ascii_of_string s).

(** Expected output written with single quotes standing for double ones. *)
Definition sq (s : string) : str :=
  map (fun c => if Ascii.eqb c "'" then dquote else c) (lit s).

(** A 64-bit and a 32-bit build. *)
Definition p64 : platform := {| plat_width := Wide; _gc_head_size := 16 |}.
Definition p32 : platform := {| plat_width := Narrow; _gc_head_size := 12 |}.

Definition leaf (type_name : string) (p : payload) (len : option Z)
    (basicsize : N) : pyobj :=
  {| ob_type_name := text_of type_name; ob_name := None; ob_len := len;
     ob_payload := p; ob_referents := []; ob_hashable := true;
     ob_has_gc := false; ob_basicsize := basicsize; ob_sizeof := None |}.

Definition container (type_name : string) (refs : list Z) (is_hashable : bool)
    (len : option Z) (basicsize : N) : pyobj :=
  {| ob_type_name := text_of type_name; ob_name := None; ob_len := len;
     ob_payload := POther; ob_referents := refs; ob_hashable := is_hashable;
     ob_has_gc := true; ob_basicsize := basicsize; ob_sizeof := None |}.

Definition int_object (n : Z) : pyobj := leaf "int" (PInt n) None 28.
Definition bool_object (b : bool) : pyobj := leaf "bool" (PBool b) None 28.
Definition none_object : pyobj := leaf "NoneType" PNone None 16.
Definition str_object (s : string) : pyobj :=
  leaf "str" (PText (text_of s)) (Some (Z.of_nat (String.length s)))
       (49 + N.of_nat (String.length s)).
Definition tuple_object (refs : list Z) : pyobj :=
  container "tuple" refs true (Some (Z.of_nat (length refs)))
            (24 + 8 * N.of_nat (length refs)).
Definition list_object (refs : list Z) : pyobj :=
  container "list" refs false (Some (Z.of_nat (length refs)))
            (40 + 8 * N.of_nat (length refs)).
Definition dict_object (refs : list Z) : pyobj :=
  container "dict" refs false (Some (Z.of_nat (length refs) / 2)) 48.

(** [CustomSize(size)] of [test__sizeof__instance]: four words, a collector
    header, and a [__sizeof__] that returns [size]. *)
Definition CustomSize (p : platform) (size : Z) : pyobj :=
  {| ob_type_name := text_of "CustomSize"; ob_name := None; ob_len := None;
     ob_payload := POther; ob_referents := []; ob_hashable := true;
     ob_has_gc := true; ob_basicsize := Z.to_N (4 * _word_size p);
     ob_sizeof := Some size |}.

(** [CustomWithoutSizeof()] of [test_size_of_special]. *)
Definition CustomWithoutSizeof (p : platform) : pyobj :=
  {| ob_type_name := text_of "CustomWithoutSizeof"; ob_name := None;
     ob_len := None; ob_payload := POther; ob_referents := [];
     ob_hashable := true; ob_has_gc := true;
     ob_basicsize := Z.to_N (4 * _word_size p); ob_sizeof := None |}.

Definition _size_32 : size_fn := fun _ => 800.
Definition _size_64 : size_fn := fun _ => 1600.
Definition _size_neg1 : size_fn := fun _ => -1.

(** A list that holds a tuple and a string, the tuple holding the list. *)
Definition cycle_heap : heap :=
  <[1 := list_object [2; 3]]>
  (<[2 := tuple_object [1]]>
  (<[3 := str_object "leaf"]> ∅)).

(** Two tuples that hold the same string, and [None]. *)
Definition shared_heap : heap :=
  <[10 := none_object]>
  (<[100 := tuple_object [300]]>
  (<[200 := tuple_object [300]]>
  (<[300 := str_object "shared"]> ∅))).

(** A list (unhashable) that holds an integer, a dict and a string. *)
Definition list_heap : heap :=
  <[50 := list_object [60; 70; 80]]>
  (<[60 := int_object 7]>
  (<[70 := dict_object []]>
  (<[80 := str_object "x"]> ∅))).

Definition skip_80 : skip_set := {| ss_id := 999; ss_members := {[80]} |}.

(** [U(n)], for [class U(int)] with [__hash__ = None]: an integer that
    cannot be hashed. *)
Definition unhashable_int (n : Z) : pyobj :=
  {| ob_type_name := text_of "U"; ob_name := None; ob_len := None;
     ob_payload := PInt n; ob_referents := []; ob_hashable := false;
     ob_has_gc := true; ob_basicsize := 32; ob_sizeof := None |}.

(** The list [[U(3)]]. *)
Definition unhashable_heap : heap :=
  <[1 := list_object [2]]> (<[2 := unhashable_int 3]> ∅).

(** [set()] as the skip set. *)
Definition empty_skip_set : skip_set := {| ss_id := 999; ss_members := ∅ |}.

End Examples.

(** ** Notions used by the further properties *)

Import Reader.

(** A printable ASCII character: a space up to a tilde. *)
Definition printable (a : ascii) : bool :=
  ((32 <=? N_of_ascii a) && (N_of_ascii a <=? 126))%N.

Definition all_printable (s : str) : Prop :=
  Forall (fun a => printable a = true) s.

(** A code point the escaping functions write as it is: printable ASCII
    other than the backslash, the slash and the double quote. *)
Definition plain_char (c : N) : bool :=
  ((32 <=? c) && (c <=? 126) && negb (N_in c simple_escapes))%N.

(** The text fields of an object hold code points, and the name of the
    code of a frame is printable. *)
Definition printable_fields (o : pyobj) : Prop :=
  Forall code_point (ob_type_name o) /\
  (forall name, ob_name o = Some name -> Forall code_point name) /\
  match ob_payload o with
  | PText u => Forall code_point u
  | PFrame co_name => all_printable co_name
  | _ => True
  end.

(** The objects of a heap, each counted with its referents. *)
Definition heap_weight (h : heap) : nat :=
  sum_list (map (fun ao => S (length (ob_referents ao.2))) (map_to_list h)).

(** The rounds that are enough for the loop of [dump_all_referenced]. *)
Definition walk_fuel (h : heap) : nat := S (S (heap_weight h)).

(** A character of a decimal numeral: a digit or the minus sign. *)
Definition decimal_char (a : ascii) : bool :=
  (Ascii.eqb a "-" || ((48 <=? N_of_ascii a) && (N_of_ascii a <=? 57)))%N.

(** The weight of the objects of a heap that are not in [seen]. *)
Definition unseen_weight (h : heap) (seen : gset Z) : nat :=
  sum_list (map (fun ao => S (length (ob_referents ao.2)))
                (filter (fun ao => ao.1 ∉ seen) (map_to_list h))).

(** A referent whose test against the skip set raises: the loop of
    [py_dump_object_info] tests it, and it is unhashable. *)
Definition raising_referent (h : heap) (r : Z) : Prop :=
  no_traverse h r = true /\ hashable h r = false.

(** * Properties *)

Import Reader Examples.

Set Warnings "-clear-no-such-hyp".

(** [lia] with division and remainder by constants. *)
Ltac divmod_lia := zify; Z.to_euclidean_division_equations; lia.

(** ** Formatting *)

Section FormatFacts.
Local Open Scope N_scope.

Lemma hex_digits_aux_S fuel n acc :
  hex_digits_aux (S fuel) n acc =
  if n / 16 =? 0 then hex_digit (n mod 16) :: acc
  else hex_digits_aux fuel (n / 16) (hex_digit (n mod 16) :: acc).
Proof. reflexivity. Qed.

Lemma size_above n k : 2 ^ k <= n -> k < N.size n.
Proof.
  intros Hk. pose proof (N.size_gt n) as Hn.
  apply (N.pow_lt_mono_r_iff 2); lia.
Qed.

Lemma fuel_above n k :
  2 ^ N.of_nat k <= n -> (k < N.to_nat (N.size n))%nat.
Proof. intros Hk%size_above. lia. Qed.

(** Below [0x10000], ['%04x'] is exactly four digits. *)
Lemma format_04x_16bit n : n < 65536 -> format_04x n = four_digits n.
Proof.
  intros Hn. unfold format_04x, format_x, four_digits.
  destruct (N.ltb_spec n 16) as [H1|H1].
  { rewrite hex_digits_aux_S.
    replace (n / 16) with 0 by divmod_lia.
    replace (n / 4096) with 0 by divmod_lia.
    replace (n / 256) with 0 by divmod_lia. reflexivity. }
  pose proof (fuel_above n 4 ltac:(simpl; lia)) as Hf.
  destruct (N.to_nat (N.size n)) as [|[|[|[|[|f]]]]] eqn:Ef; try lia.
  clear Hf.
  rewrite hex_digits_aux_S.
  destruct (N.eqb_spec (n / 16) 0) as [E|_]; [divmod_lia|].
  rewrite hex_digits_aux_S.
  replace (n / 16 / 16) with (n / 256) by divmod_lia.
  destruct (N.eqb_spec (n / 256) 0) as [E|E].
  { replace (n / 4096) with 0 by divmod_lia. rewrite E. reflexivity. }
  rewrite hex_digits_aux_S.
  replace (n / 256 / 16) with (n / 4096) by divmod_lia.
  destruct (N.eqb_spec (n / 4096) 0) as [E'|E'].
  { rewrite E'. reflexivity. }
  rewrite hex_digits_aux_S.
  replace (n / 4096 / 16) with 0 by divmod_lia.
  replace (n / 4096 mod 16) with (n / 4096) by divmod_lia.
  reflexivity.
Qed.

Lemma b2a_hex_unit n :
  n < 65536 -> b2a_hex [n / 256; n mod 256] = four_digits n.
Proof.
  intros Hn. unfold b2a_hex, four_digits. simpl.
  replace (n / 256 / 16) with (n / 4096) by divmod_lia.
  replace (n mod 256 / 16) with (n / 16 mod 16) by divmod_lia.
  replace (n mod 256 mod 16) with (n mod 16) by divmod_lia.
  reflexivity.
Qed.

End FormatFacts.

Example format_04x_small : format_04x 0xb5 = lit "00b5".
Proof. reflexivity. Qed.

Example format_04x_wide : format_04x 0x12345 = lit "12345".
Proof. reflexivity. Qed.

Example format_d_negative : format_d (-120) = lit "-120".
Proof. reflexivity. Qed.

(** ** The escaping functions, piece by piece *)

Lemma fold_left_append {A B} (f : A -> B) (l : list A) (init : list B) :
  fold_left (fun out x => out ++ [f x]) l init = init ++ map f l.
Proof.
  revert init. induction l as [|x l IH]; intros init; simpl.
  - by rewrite app_nil_r.
  - rewrite IH, <- app_assoc. reflexivity.
Qed.

Lemma _bytes_to_json_pieces s :
  _bytes_to_json s
  = dquote :: concat (map (fun b => bytes_piece (Byte.to_N b)) s) ++ [dquote].
Proof.
  unfold _bytes_to_json, join.
  rewrite (fold_left_append (fun b => bytes_piece (Byte.to_N b))).
  rewrite !concat_app. simpl. by rewrite ?app_nil_r.
Qed.

Lemma _text_to_json_pieces u :
  _text_to_json u = dquote :: concat (map text_piece u) ++ [dquote].
Proof.
  unfold _text_to_json, join. rewrite (fold_left_append text_piece).
  rewrite !concat_app. simpl. by rewrite ?app_nil_r.
Qed.

Lemma bytes_piece_spec b : bytes_piece (Byte.to_N b) = spec_byte_escape b.
Proof. destruct b; reflexivity. Qed.

(** The tests of [TestJSONBytes] and [TestJSONText]. *)
Example test_empty_bytes : _bytes_to_json [] = sq "''".
Proof. reflexivity. Qed.

Example test_simple_bytes :
  _bytes_to_json (list_byte_of_string "aoeu aoeu") = sq "'aoeu aoeu'".
Proof. reflexivity. Qed.

Example test_simple_escapes_bytes :
  _bytes_to_json (list_byte_of_string "\x/y" ++ [Byte.x22])
  = [dquote] ++ lit "\\x\/y\" ++ [dquote; dquote].
Proof. reflexivity. Qed.

Example test_control_escapes :
  _bytes_to_json [Byte.x00; Byte.x01; Byte.x02; Byte.x1f]
  = sq "'\u0000\u0001\u0002\u001f'".
Proof. reflexivity. Qed.

Example test_ascii_chars : _text_to_json (text_of "abcdefg") = sq "'abcdefg'".
Proof. reflexivity. Qed.

Example test_unicode_chars :
  _text_to_json [0x12; 0xb5; 0x2030; 0x1f]%N = sq "'\u0012\u00b5\u2030\u001f'".
Proof. reflexivity. Qed.

Example test_simple_escapes_text :
  _text_to_json [92; 120; 47; 121; 34]%N
  = [dquote] ++ lit "\\x\/y\" ++ [dquote; dquote].
Proof. reflexivity. Qed.

Example test_non_bmp : _text_to_json [0x12345]%N = sq "'\ud808\udf45'".
Proof. reflexivity. Qed.

(** C4. The escaping of a byte string: the result is the opening quote, the
    escape of each byte in order, and the closing quote, where a byte up to
    31 or above 126 is written as a backslash-u escape of the form 00XX, the
    backslash, the slash and the double quote are written after a
    backslash, and every other byte is written as it is
    ([spec_byte_escape]). *)
Theorem bytes_escaping_rule (s : list Byte.byte) :
  _bytes_to_json s = [dquote] ++ concat (map spec_byte_escape s) ++ [dquote].
Proof.
  rewrite _bytes_to_json_pieces. simpl. do 3 f_equal.
  apply map_ext. intros b. apply bytes_piece_spec.
Qed.

(** ** Surrogate pairs *)

Section SurrogateFacts.
Local Open Scope N_scope.

Lemma surrogates_in_range c :
  0xffff < c -> code_point c ->
  is_high (high_surrogate c) = true /\ is_low (low_surrogate c) = true /\
  0x10000 + (high_surrogate c - 0xD800) * 0x400 + (low_surrogate c - 0xDC00) = c.
Proof.
  unfold code_point, is_high, is_low, high_surrogate, low_surrogate.
  intros H1 H2. rewrite !andb_true_iff, !N.leb_le. divmod_lia.
Qed.

Lemma text_piece_non_bmp c :
  0xffff < c -> code_point c ->
  text_piece c
  = lit "\u" ++ four_digits (high_surrogate c)
    ++ lit "\u" ++ four_digits (low_surrogate c).
Proof.
  intros H1 H2. unfold text_piece.
  destruct (N.ltb_spec 0xffff c) as [_|]; [|lia].
  destruct (surrogates_in_range c H1 H2) as (Hh & Hl & _).
  unfold is_high, is_low in *. rewrite andb_true_iff, !N.leb_le in Hh, Hl.
  unfold utf_16_be. destruct (N.ltb_spec c 0x10000) as [|_]; [lia|].
  fold (high_surrogate c) (low_surrogate c).
  change (b2a_hex [?a; ?b; ?c; ?d]) with (b2a_hex [a; b] ++ b2a_hex [c; d]).
  rewrite !b2a_hex_unit by lia.
  reflexivity.
Qed.

Lemma text_piece_bmp c : c <= 0xffff -> text_piece c = bytes_piece c.
Proof.
  intros Hc. unfold text_piece, bytes_piece.
  by destruct (N.ltb_spec 0xffff c); [lia|].
Qed.

End SurrogateFacts.

(** ** Reading the escapes back *)

Section ReaderFacts.
Local Open Scope N_scope.

Lemma hex_val_digit d : d < 16 -> hex_val (hex_digit d) = Some d.
Proof.
  intros Hd. rewrite <- (N2Nat.id d).
  assert (N.to_nat d < 16)%nat as Hk by lia.
  revert Hk. generalize (N.to_nat d) as k. intros k Hk.
  do 16 (destruct k as [|k]; [reflexivity|]). lia.
Qed.

Lemma hex4_four_digits n a b c d :
  n < 65536 -> four_digits n = [a; b; c; d] -> hex4 a b c d = Some n.
Proof.
  intros Hn [= <- <- <- <-]. unfold hex4.
  rewrite !hex_val_digit by divmod_lia.
  f_equal. divmod_lia.
Qed.

Lemma units_backslash_u a b c d rest :
  units (backslash :: "u"%char :: a :: b :: c :: d :: rest)
  = match hex4 a b c d, units rest with
    | Some h, Some us => Some (h :: us)
    | _, _ => None
    end.
Proof. reflexivity. Qed.

Lemma units_u_escape n rest :
  n < 65536 ->
  units (lit "\u" ++ four_digits n ++ rest) = cons_units [n] (units rest).
Proof.
  intros Hn.
  change (lit "\u" ++ four_digits n ++ rest)
    with (backslash :: "u"%char :: four_digits n ++ rest).
  destruct (four_digits n) as [|a [|b [|c [|d [|]]]]] eqn:E; try discriminate.
  simpl app. rewrite units_backslash_u.
  rewrite (hex4_four_digits n a b c d Hn E). reflexivity.
Qed.

Lemma units_plain x rest :
  x <> dquote -> x <> backslash ->
  units (x :: rest) = cons_units [N_of_ascii x] (units rest).
Proof.
  intros H1%Ascii.eqb_neq H2%Ascii.eqb_neq. simpl. rewrite H1, H2. reflexivity.
Qed.

Lemma ascii_of_N_neq c k :
  c < 256 -> k < 256 -> c <> k -> ascii_of_N c <> ascii_of_N k.
Proof.
  intros Hc Hk Hne E. apply Hne.
  rewrite <- (N_ascii_embedding c), <- (N_ascii_embedding k) by assumption.
  by rewrite E.
Qed.

Lemma units_simple_escape c rest :
  N_in c simple_escapes = true ->
  units ([backslash; ascii_of_N c] ++ rest) = cons_units [c] (units rest).
Proof.
  intros Hin. unfold N_in, simple_escapes in Hin. simpl in Hin.
  rewrite !orb_true_iff, !N.eqb_eq in Hin.
  destruct Hin as [->|[->|[->|?]]]; [reflexivity ..|discriminate].
Qed.

Lemma units_literal c rest :
  0x1f < c -> c <= 0x7e -> N_in c simple_escapes = false ->
  units ([ascii_of_N c] ++ rest) = cons_units [c] (units rest).
Proof.
  intros H1 H2 Hin. unfold N_in, simple_escapes in Hin. simpl in Hin.
  rewrite !orb_false_iff, !N.eqb_neq in Hin. destruct Hin as (Hb & Hs & Hq & _).
  simpl app. rewrite units_plain.
  - rewrite N_ascii_embedding by lia. reflexivity.
  - apply (ascii_of_N_neq c 34); lia.
  - apply (ascii_of_N_neq c 92); lia.
Qed.

(** What one round of [_text_to_json] writes reads back as the UTF-16 units
    of its code point. *)
Lemma units_text_piece c rest :
  code_point c ->
  units (text_piece c ++ rest) = cons_units (utf16_units c) (units rest).
Proof.
  intros Hc. unfold utf16_units.
  destruct (N.ltb_spec 0xffff c) as [Hbig|Hbmp].
  - rewrite text_piece_non_bmp by assumption.
    destruct (surrogates_in_range c Hbig Hc) as (Hh & Hl & _).
    unfold is_high, is_low in Hh, Hl. rewrite andb_true_iff, !N.leb_le in Hh, Hl.
    rewrite <- !app_assoc.
    rewrite units_u_escape by lia. rewrite units_u_escape by lia.
    destruct (units rest); reflexivity.
  - unfold text_piece.
    destruct (N.ltb_spec 0xffff c) as [|_]; [lia|].
    destruct ((c <=? 0x1f) || (0x7e <? c)) eqn:Eesc.
    + rewrite format_04x_16bit by lia. rewrite <- app_assoc.
      apply units_u_escape. lia.
    + apply orb_false_iff in Eesc as [E1%N.leb_gt E2%N.ltb_ge].
      destruct (N_in c simple_escapes) eqn:Es.
      * by apply units_simple_escape.
      * by apply units_literal.
Qed.

Lemma units_text_pieces u :
  Forall code_point u ->
  units (concat (map text_piece u) ++ [dquote]) = Some (flat_map utf16_units u).
Proof.
  induction 1 as [|c u Hc _ IH]; [reflexivity|].
  simpl. rewrite <- app_assoc, units_text_piece, IH by assumption. reflexivity.
Qed.

Lemma utf16_decode_units c us :
  code_point c ->
  match us with lo :: _ => is_high c && is_low lo = false | [] => True end ->
  utf16_decode (utf16_units c ++ us) = c :: utf16_decode us.
Proof.
  intros Hc Hus. unfold utf16_units.
  destruct (N.ltb_spec 0xffff c) as [Hbig|Hbmp].
  - destruct (surrogates_in_range c Hbig Hc) as (Hh & Hl & Hcomb).
    simpl. rewrite Hh, Hl. simpl. by rewrite Hcomb.
  - destruct us as [|lo us']; [reflexivity|].
    simpl in *. rewrite Hus. reflexivity.
Qed.

(** The first unit of a code point is a low surrogate only when the code
    point itself is one. *)
Lemma first_unit_low b :
  code_point b ->
  match utf16_units b with
  | lo :: _ => is_low lo = true -> lo = b
  | [] => False
  end.
Proof.
  intros Hb. unfold utf16_units.
  destruct (N.ltb_spec 0xffff b) as [Hbig|Hbmp]; [|done].
  unfold is_low, high_surrogate, code_point in *.
  rewrite andb_true_iff, !N.leb_le. divmod_lia.
Qed.

Lemma utf16_decode_text u :
  Forall code_point u -> pair_free u = true ->
  utf16_decode (flat_map utf16_units u) = u.
Proof.
  induction 1 as [|a u Ha Hu IH]; [reflexivity|].
  intros Hpf.
  change (flat_map utf16_units (a :: u))
    with (utf16_units a ++ flat_map utf16_units u).
  assert (pair_free u = true) as Hpf'.
  { destruct u; [reflexivity|]. simpl in Hpf.
    by apply andb_true_iff in Hpf as [_ ?]. }
  rewrite utf16_decode_units, IH; try done.
  destruct u as [|b u']; [done|].
  inversion Hu as [|? ? Hb _]; subst.
  pose proof (first_unit_low b Hb) as Hlow.
  simpl in Hpf. apply andb_true_iff in Hpf as [Hab%negb_true_iff _].
  simpl. destruct (utf16_units b) as [|lo rest] eqn:E; [done|]. simpl.
  destruct (is_low lo) eqn:El; [|by rewrite andb_false_r].
  rewrite (Hlow eq_refl) in El. by rewrite El in Hab.
Qed.

Lemma json_decode_text u :
  Forall code_point u -> pair_free u = true ->
  json_decode (_text_to_json u) = Some u.
Proof.
  intros Hu Hpf. rewrite _text_to_json_pieces. simpl.
  rewrite units_text_pieces by assumption. simpl.
  by rewrite utf16_decode_text.
Qed.

Lemma byte_to_N_bound b : Byte.to_N b < 256.
Proof. destruct b; reflexivity. Qed.

(** A byte string is escaped as the text of its bytes. *)
Lemma _bytes_to_json_as_text s :
  _bytes_to_json s = _text_to_json (map Byte.to_N s).
Proof.
  rewrite _bytes_to_json_pieces, _text_to_json_pieces, map_map.
  do 3 f_equal. apply map_ext. intros b.
  symmetry. apply text_piece_bmp. pose proof (byte_to_N_bound b). lia.
Qed.

Lemma pair_free_no_high u :
  Forall (fun c => is_high c = false) u -> pair_free u = true.
Proof.
  induction 1 as [|a u Ha _ IH]; [reflexivity|].
  simpl. destruct u; [reflexivity|]. by rewrite Ha, IH.
Qed.

Lemma bytes_of_text_to_N s : bytes_of_text (map Byte.to_N s) = Some s.
Proof.
  unfold bytes_of_text. apply mapM_Some. induction s as [|b s IH]; simpl.
  - constructor.
  - constructor; [apply Byte.of_to_N|exact IH].
Qed.

(** The escapes of a byte string read back as the byte string. *)
Lemma json_decode_bytes s :
  json_decode (_bytes_to_json s) ≫= bytes_of_text = Some s.
Proof.
  rewrite _bytes_to_json_as_text, json_decode_text; simpl.
  - apply bytes_of_text_to_N.
  - apply Forall_map, Forall_true. intros b.
    pose proof (byte_to_N_bound b). unfold code_point. simpl. lia.
  - apply pair_free_no_high, Forall_map, Forall_true. intros b.
    pose proof (byte_to_N_bound b). unfold is_high. simpl.
    apply andb_false_iff. left. apply N.leb_gt. lia.
Qed.

End ReaderFacts.

(** C5, as the specification states it, fails: a text may hold surrogate
    code points, and the two-character text U+D808 U+DF45 is escaped to the
    very string the one-character text U+12345 is escaped to, so that no
    reader, whatever it does, gives back both. *)
Lemma surrogate_code_points_collide :
  _text_to_json (take 100 [0xD808; 0xDF45]%N)
  = _text_to_json (take 100 [0x12345]%N)
  /\ Forall code_point [0xD808; 0xDF45]%N
  /\ ~ (exists decode : str -> option text,
          forall v : text, Forall code_point v -> (length v <= 100)%nat ->
            decode (_text_to_json (take 100 v)) = Some v).
Proof.
  split; [reflexivity|]. split; [by repeat constructor|].
  intros [decode Hdec].
  pose proof (Hdec [0xD808; 0xDF45]%N) as H1.
  pose proof (Hdec [0x12345]%N) as H2.
  assert (_text_to_json (take 100 [0xD808; 0xDF45]%N)
          = _text_to_json (take 100 [0x12345]%N)) as E by reflexivity.
  rewrite E in H1. rewrite H2 in H1.
  - specialize (H1 ltac:(by repeat constructor) ltac:(simpl; lia)). discriminate.
  - by repeat constructor.
  - simpl. lia.
Qed.

(** C5, amended.  A code point above the basic plane is written as exactly
    two backslash-u escapes of four digits, its high surrogate and then its
    low surrogate, which read back as that code point; the escaped text is
    the quote-enclosed sequence of what each code point is written as; and
    a text of at most 100 code points in which no high-surrogate code point
    is directly followed by a low-surrogate one is read back exactly from
    its [value]. *)
Theorem text_value_escapes_round_trip :
  (forall c : N, (0xffff < c)%N -> code_point c ->
     text_piece c
     = lit "\u" ++ four_digits (high_surrogate c)
       ++ lit "\u" ++ four_digits (low_surrogate c)
     /\ is_high (high_surrogate c) = true
     /\ is_low (low_surrogate c) = true
     /\ utf16_decode [high_surrogate c; low_surrogate c] = [c]) /\
  (forall v : text,
     _text_to_json v = [dquote] ++ concat (map text_piece v) ++ [dquote]) /\
  (forall v : text,
     Forall code_point v -> pair_free v = true -> (length v <= 100)%nat ->
     json_decode (_text_to_json (take 100 v)) = Some v).
Proof.
  split; [|split].
  - intros c Hbig Hc.
    destruct (surrogates_in_range c Hbig Hc) as (Hh & Hl & Hcomb).
    repeat split; try done.
    + by apply text_piece_non_bmp.
    + simpl. by rewrite Hh, Hl, Hcomb.
  - intros v. apply _text_to_json_pieces.
  - intros v Hv Hpf Hlen. rewrite take_ge by lia. by apply json_decode_text.
Qed.

Lemma text_value_escapes_round_trip_witness :
  (Forall code_point [0x61; 0x12345; 0xD808; 0x22]%N
   /\ pair_free [0x61; 0x12345; 0xD808; 0x22]%N = true
   /\ (length [0x61; 0x12345; 0xD808; 0x22]%N <= 100)%nat)
  /\ json_decode (_text_to_json (take 100 [0x61; 0x12345; 0xD808; 0x22]%N))
     = Some [0x61; 0x12345; 0xD808; 0x22]%N.
Proof.
  assert (Forall code_point [0x61; 0x12345; 0xD808; 0x22]%N) as Hv
    by (repeat constructor).
  assert (length [0x61; 0x12345; 0xD808; 0x22]%N <= 100)%nat as Hlen
    by (simpl; lia).
  split; [by repeat split|].
  exact (proj2 (proj2 text_value_escapes_round_trip) _ Hv eq_refl Hlen).
Defined.

(** ** The object sizer *)

Section SizerFacts.
Variable p : platform.

Lemma _word_size_pos : 0 < _word_size p.
Proof. unfold _word_size. destruct (plat_width p); lia. Qed.

Lemma default_content_nonneg o : 0 <= default_content o.
Proof.
  unfold default_content.
  destruct (ob_sizeof o) as [v|]; [destruct (Z.leb_spec 0 v)|]; lia.
Qed.

Lemma content_size_nonneg reg o : 0 <= content_size p reg o.
Proof.
  unfold content_size. pose proof (default_content_nonneg o).
  destruct (lookup_size reg _ _) as [f|]; [|assumption].
  simpl. destruct (Z.leb_spec 0 (f o)); lia.
Qed.

Lemma overhead_nonneg o : 0 <= overhead p o.
Proof. unfold overhead. destruct (ob_has_gc o); lia. Qed.

Lemma round_up_word_multiple n :
  0 <= n -> 0 <= round_up_word p n /\ round_up_word p n mod _word_size p = 0.
Proof.
  intros Hn. pose proof _word_size_pos as Hw. unfold round_up_word. split.
  - apply Z.mul_nonneg_nonneg; [apply Z.div_pos|]; lia.
  - apply Z.mod_mul. lia.
Qed.

(** Rounding up adds less than one word. *)
Lemma round_up_word_least n :
  n <= round_up_word p n < n + _word_size p.
Proof.
  pose proof _word_size_pos as Hw. unfold round_up_word.
  pose proof (Z.mul_div_le (n + _word_size p - 1) (_word_size p) Hw).
  pose proof (Z.mul_succ_div_gt (n + _word_size p - 1) (_word_size p) Hw).
  lia.
Qed.

Lemma round_up_word_id n :
  n mod _word_size p = 0 -> round_up_word p n = n.
Proof.
  intros Hn. pose proof _word_size_pos as Hw. unfold round_up_word.
  apply Z.mod_divide in Hn as [k ->]; [|lia].
  replace (k * _word_size p + _word_size p - 1)
    with (_word_size p - 1 + k * _word_size p) by lia.
  rewrite Z.div_add by lia. rewrite Z.div_small by lia. lia.
Qed.

Lemma lookup_size_register_eq (reg : registry) T f32 f64 w :
  lookup_size (register T (Some f32) (Some f64) reg) T w
  = Some (match w with Narrow => f32 | Wide => f64 end).
Proof.
  unfold lookup_size, register. rewrite lookup_insert_eq. by destruct w.
Qed.

(** Registering for one type name leaves the others as they were. *)
Lemma lookup_size_register_ne (reg : registry) T T' n w wd :
  T <> T' -> lookup_size (register T n w reg) T' wd = lookup_size reg T' wd.
Proof.
  intros Hne. unfold lookup_size, register.
  destruct n, w; by rewrite ?lookup_insert_ne, ?lookup_delete_ne.
Qed.

Lemma lookup_size_clear (reg : registry) T w :
  lookup_size (register T None None reg) T w = None.
Proof. unfold lookup_size, register. by rewrite lookup_delete_eq. Qed.

Lemma size_of_no_override (reg : registry) o :
  lookup_size reg (ob_type_name o) (plat_width p) = None ->
  size_of p reg o = default_size p o.
Proof. intros H. unfold size_of, default_size, content_size. by rewrite H. Qed.

(** A registered function that returns a negative number is passed over,
    whichever the number. *)
Lemma size_of_override_negative (reg : registry) o f :
  lookup_size reg (ob_type_name o) (plat_width p) = Some f -> f o < 0 ->
  size_of p reg o = default_size p o.
Proof.
  intros H Hf. unfold size_of, default_size, content_size. rewrite H. simpl.
  destruct (Z.leb_spec 0 (f o)); [lia|reflexivity].
Qed.

End SizerFacts.

(** [test_size_of_special] and [test_size_of_special_neg1], on both
    builds: [assertExactSizeOf(200, obj)] and [assertExactSizeOf(4, obj)]. *)
Example test_size_of_special_64 :
  let reg := add_special_size (text_of "CustomWithoutSizeof")
               (Some _size_32) (Some _size_64) ∅ in
  size_of p64 ∅ (CustomWithoutSizeof p64) = 4 * 8 + 16 /\
  size_of p64 reg (CustomWithoutSizeof p64) = 200 * 8 + 16 /\
  size_of p64 (add_special_size (text_of "CustomWithoutSizeof") None None reg)
          (CustomWithoutSizeof p64) = 4 * 8 + 16.
Proof. repeat split; reflexivity. Qed.

Example test_size_of_special_32 :
  let reg := add_special_size (text_of "CustomWithoutSizeof")
               (Some _size_32) (Some _size_64) ∅ in
  size_of p32 reg (CustomWithoutSizeof p32) = 200 * 4 + 12.
Proof. reflexivity. Qed.

Example test_size_of_special_neg1 :
  let reg := add_special_size (text_of "CustomWithoutSizeof")
               (Some _size_neg1) (Some _size_neg1) ∅ in
  size_of p64 reg (CustomWithoutSizeof p64) = 4 * 8 + 16.
Proof. reflexivity. Qed.

(** A hook result that is not a multiple of the word size: the four steps
    of the specification take ten bytes and the header up to the next word,
    where [sys.getsizeof] leaves them as they are. *)
Example size_of_custom_size_10 :
  size_of p64 ∅ (CustomSize p64 10) = 32 /\
  size_of p64 ∅ (CustomSize p64 20) = 40 /\
  sys_getsizeof p64 (CustomSize p64 10) = Some 26 /\
  sys_getsizeof p64 (CustomSize p64 20) = Some 36.
Proof. repeat split; reflexivity. Qed.

(** [test__sizeof__instance]: [sys.getsizeof] fails on [CustomSize(-1)]. *)
Example sys_getsizeof_custom_size_neg1 :
  sys_getsizeof p64 (CustomSize p64 (-1)) = None.
Proof. reflexivity. Qed.


(** C1. After an override [(f32, f64)] is registered for the type name [T],
    the size of an instance [o] of [T] is the result of the function of the
    platform's width with the overhead added and rounded up to the word
    size, when that result is a size (not negative); it is the default
    computation when the function returns -1; and after the override is
    cleared by registering two null functions it is the default computation
    again. *)
Theorem registry_override_precedence
    (p : platform) (reg : registry) (T : text) (f32 f64 : size_fn) (o : pyobj) :
  ob_type_name o = T ->
  let reg' := add_special_size T (Some f32) (Some f64) reg in
  let f := match plat_width p with Narrow => f32 | Wide => f64 end in
  (0 <= f o -> size_of p reg' o = round_up_word p (f o + overhead p o)) /\
  (f o = -1 -> size_of p reg' o = default_size p o) /\
  size_of p (add_special_size T None None reg') o = default_size p o.
Proof.
  intros <- reg' f. unfold add_special_size in *. repeat split.
  - intros Hf. unfold size_of, content_size, reg'.
    rewrite lookup_size_register_eq. fold f. simpl.
    destruct (Z.leb_spec 0 (f o)); [reflexivity|lia].
  - intros Hf. unfold size_of, default_size, content_size, reg'.
    rewrite lookup_size_register_eq. fold f. simpl. rewrite Hf. reflexivity.
  - apply size_of_no_override, lookup_size_clear.
Qed.

Lemma registry_override_precedence_witness :
  let T := text_of "CustomWithoutSizeof" in
  let o := CustomWithoutSizeof p64 in
  let reg' := add_special_size T (Some _size_32) (Some _size_64) ∅ in
  (ob_type_name o = T /\ 0 <= _size_64 o) /\
  size_of p64 reg' o = round_up_word p64 (1600 + overhead p64 o) /\
  size_of p64 (add_special_size T None None reg') o = default_size p64 o.
Proof.
  pose proof (registry_override_precedence p64 ∅
                (text_of "CustomWithoutSizeof") _size_32 _size_64
                (CustomWithoutSizeof p64) eq_refl) as (Hsize & _ & Hclear).
  assert (0 <= _size_64 (CustomWithoutSizeof p64)) as Hpos
    by (unfold _size_64; lia).
  split; [split; [reflexivity|exact Hpos]|].
  split; [exact (Hsize Hpos)|exact Hclear].
Defined.




(** C7. When the [__sizeof__] hook of an object returns a negative number
    (and no override stands for its type, or the override declines), its
    size is the generic computation, the basic size of the object plus the
    overhead, up to the word size: neither a failure nor the negative
    number. *)
Theorem negative_sizeof_falls_back
    (p : platform) (reg : registry) (o : pyobj) (v : Z) :
  ob_sizeof o = Some v -> v < 0 ->
  (forall f, lookup_size reg (ob_type_name o) (plat_width p) = Some f -> f o < 0) ->
  size_of p reg o = generic_size p o /\
  0 <= size_of p reg o /\
  ((Z.of_N (ob_basicsize o) + overhead p o) mod _word_size p = 0 ->
   size_of p reg o = Z.of_N (ob_basicsize o) + overhead p o).
Proof.
  intros Hv Hneg Hreg.
  assert (size_of p reg o = generic_size p o) as E.
  { unfold size_of, generic_size, content_size, default_content.
    rewrite Hv. destruct (Z.leb_spec 0 v); [lia|].
    destruct (lookup_size reg _ _) as [f|]; [|reflexivity].
    specialize (Hreg f eq_refl). simpl.
    destruct (Z.leb_spec 0 (f o)); [lia|reflexivity]. }
  split; [exact E|]. split.
  - rewrite E. apply round_up_word_multiple.
    pose proof (overhead_nonneg p o). lia.
  - intros Hm. rewrite E. by apply round_up_word_id.
Qed.

(** [assertExactSizeOf(4, CustomSize(-1), has_gc=True)] *)
Lemma negative_sizeof_falls_back_witness :
  (ob_sizeof (CustomSize p64 (-1)) = Some (-1) /\ -1 < 0 /\
   lookup_size ∅ (ob_type_name (CustomSize p64 (-1))) (plat_width p64) = None) /\
  size_of p64 ∅ (CustomSize p64 (-1)) = 4 * _word_size p64 + 16.
Proof.
  assert (forall f : size_fn,
            lookup_size ∅ (ob_type_name (CustomSize p64 (-1))) (plat_width p64)
            = Some f -> f (CustomSize p64 (-1)) < 0) as Hreg
    by (intros f Hf; discriminate Hf).
  pose proof (negative_sizeof_falls_back p64 ∅ (CustomSize p64 (-1)) (-1)
                eq_refl eq_refl Hreg) as (_ & _ & Hexact).
  split; [repeat split|].
  exact (Hexact eq_refl).
Defined.

(** ** The record serializer *)

(** [TestPyDumpJSONObj]: a boolean, a tuple of two objects, a string with
    the characters that are escaped. *)
Example test_bool :
  _py_dump_json_obj p64 ∅ 5 (bool_object true)
  = sq "{'address': 5, 'type': 'bool', 'size': 32, 'value': 'True', 'refs': []}"
    ++ [newline].
Proof. reflexivity. Qed.

Example test_tuple :
  _py_dump_json_obj p64 ∅ 7 (tuple_object [9; 8])
  = sq "{'address': 7, 'type': 'tuple', 'size': 56, 'len': 2, 'refs': [9, 8]}"
    ++ [newline].
Proof. reflexivity. Qed.

Example test_str_len :
  value_field p64 (str_object "a \str/with") = [sq ", 'value': 'a \\str\/with'"]
  /\ len_field (str_object "a \str/with") = [sq ", 'len': 11"].
Proof. split; reflexivity. Qed.

Lemma sys_maxsize_pos p : 0 < sys_maxsize p.
Proof. unfold sys_maxsize, _word_size. destruct (plat_width p); simpl; lia. Qed.

(** The integer branch of the chain: a [value] exactly for the integers
    whose absolute value is at most [sys.maxsize]. *)
Lemma value_field_int p o n :
  ob_payload o = PInt n ->
  value_field p o
  = if Z.abs n <=? sys_maxsize p then [field "value" ++ format_d n] else [].
Proof. intros Hn. unfold value_field. by rewrite Hn. Qed.

Lemma value_field_int_outside p o n :
  ob_payload o = PInt n ->
  n < - sys_maxsize p - 1 \/ sys_maxsize p < n ->
  value_field p o = [].
Proof.
  intros Hn Hout. rewrite (value_field_int p o n Hn).
  destruct (Z.leb_spec (Z.abs n) (sys_maxsize p)); [lia|reflexivity].
Qed.

Lemma value_field_int_inside p o n :
  ob_payload o = PInt n ->
  - sys_maxsize p <= n <= sys_maxsize p ->
  value_field p o = [field "value" ++ format_d n].
Proof.
  intros Hn Hin. rewrite (value_field_int p o n Hn).
  destruct (Z.leb_spec (Z.abs n) (sys_maxsize p)); [reflexivity|lia].
Qed.

(** [test_dump_large_long] *)
Example value_field_large_long : value_field p64 (int_object (2 ^ 256)) = [].
Proof. reflexivity. Qed.

Example value_field_medium_long :
  value_field p64 (int_object (2 ^ 16)) = [sq ", 'value': 65536"].
Proof. reflexivity. Qed.

(** C6, where the code departs from it.  The least integer of the native
    signed range, [-sys.maxsize - 1], fits that range, and the serializer
    writes no [value] for it: its test is on the absolute value. *)
Theorem value_field_native_minimum (p : platform) :
  let n := - sys_maxsize p - 1 in
  - 2 ^ (8 * _word_size p - 1) <= n <= 2 ^ (8 * _word_size p - 1) - 1 /\
  value_field p (int_object n) = [].
Proof.
  unfold sys_maxsize, _word_size, value_field, int_object.
  destruct p as [[] gc]; simpl; split; (lia || reflexivity).
Qed.

(** ** One object and the referents dumped with it *)

Section InfoFacts.
Variable plat : platform.
Variable reg : registry.
Variable h : heap.

(** Once a test has raised, the loop is left with the error. *)
Lemma child_step_error nodump refs e :
  fold_left (child_step plat reg h nodump) refs (inl e) = inl e.
Proof. induction refs; simpl; auto. Qed.

(** The loop over the referents, when none of its tests raises. *)
Lemma child_steps nodump refs : forall acc,
  referent_tests_pass h nodump refs ->
  fold_left (child_step plat reg h nodump) refs (inr acc)
  = inr (acc ++ map (dump_json plat reg h) (List.filter (inline_kept h nodump) refs)).
Proof.
  induction refs as [|r refs IH]; intros acc Hok; simpl.
  - by rewrite app_nil_r.
  - assert (referent_tests_pass h nodump refs) as Hok'.
    { destruct Hok as [|Hok]; [by left|right]. by inversion Hok. }
    unfold inline_kept at 1, in_skip_set.
    destruct (no_traverse h r) eqn:Ent; simpl; [|by apply IH].
    destruct nodump as [nd|]; simpl.
    + destruct Hok as [|Hok]; [done|]. inversion Hok as [|? ? Hr _]; subst.
      unfold contains. rewrite (Hr Ent).
      case_bool_decide; simpl; rewrite IH by done; [done|].
      by rewrite <- app_assoc.
    + rewrite IH by done. by rewrite <- app_assoc.
Qed.

(** The loop over the referents, whenever it ends without an error. *)
Lemma child_steps_inr nodump refs : forall acc child_vals,
  fold_left (child_step plat reg h nodump) refs (inr acc) = inr child_vals ->
  child_vals
  = acc ++ map (dump_json plat reg h) (List.filter (inline_kept h nodump) refs).
Proof.
  induction refs as [|r refs IH]; intros acc child_vals; simpl.
  - intros [= <-]. by rewrite app_nil_r.
  - unfold inline_kept at 1, in_skip_set.
    destruct (no_traverse h r) eqn:Ent; simpl; [|by apply IH].
    destruct nodump as [nd|]; simpl.
    + destruct (contains h nd r) as [e|[|]]; simpl.
      * by rewrite child_step_error.
      * by apply IH.
      * intros Hrun%IH. by rewrite <- app_assoc in Hrun.
    + intros Hrun%IH. by rewrite <- app_assoc in Hrun.
Qed.

Lemma dump_unskipped_pass obj nodump :
  referent_tests_pass h nodump (get_referents h obj) ->
  dump_unskipped plat reg h obj nodump
  = inr (dump_json plat reg h obj
         ++ concat (map (dump_json plat reg h)
                        (List.filter (inline_kept h nodump) (get_referents h obj)))).
Proof. intros Hok. unfold dump_unskipped. by rewrite child_steps. Qed.

Lemma dump_unskipped_inr obj nodump res :
  dump_unskipped plat reg h obj nodump = inr res ->
  res = dump_json plat reg h obj
        ++ concat (map (dump_json plat reg h)
                       (List.filter (inline_kept h nodump) (get_referents h obj))).
Proof.
  unfold dump_unskipped.
  destruct (fold_left _ _ _) as [e|child_vals] eqn:Hrun; [discriminate|].
  intros [= <-]. by rewrite (child_steps_inr _ _ _ _ Hrun).
Qed.

Lemma py_dump_object_info_emitted obj nodump :
  skipped h obj nodump = false ->
  referent_tests_pass h nodump (get_referents h obj) ->
  py_dump_object_info plat reg h obj nodump
  = inr (dump_json plat reg h obj
         ++ concat (map (dump_json plat reg h)
                        (List.filter (inline_kept h nodump) (get_referents h obj)))).
Proof.
  intros Hs Hok. unfold py_dump_object_info. rewrite Hs.
  by apply dump_unskipped_pass.
Qed.

Lemma skipped_unhashable obj nd :
  obj <> ss_id nd -> contains h nd obj = inl TypeError ->
  skipped h obj (Some nd) = false.
Proof.
  intros Hne Hc. unfold skipped. rewrite Hc. by case_bool_decide.
Qed.

Lemma skipped_not_member obj nd :
  obj <> ss_id nd -> contains h nd obj = inr false ->
  skipped h obj (Some nd) = false.
Proof.
  intros Hne Hc. unfold skipped. rewrite Hc. by case_bool_decide.
Qed.

Lemma skipped_member obj nd :
  contains h nd obj = inr true -> skipped h obj (Some nd) = true.
Proof.
  intros Hc. unfold skipped. rewrite Hc. by case_bool_decide.
Qed.

(** [TestDumpInfo]: what the compiled [dump_object_info] writes is what
    [py_dump_object_info] returns, whenever the latter returns. *)
Lemma dump_object_info_lines obj nodump depth res :
  py_dump_object_info plat reg h obj nodump = inr res ->
  referent_tests_pass h nodump (get_referents h obj) ->
  concat (map rec_line (dump_object_info plat reg h obj nodump (S depth))) = res.
Proof.
  unfold dump_object_info. intros Hpy Hok.
  destruct (skipped h obj nodump) eqn:Es.
  - unfold py_dump_object_info in Hpy. rewrite Es in Hpy. by injection Hpy as <-.
  - rewrite py_dump_object_info_emitted in Hpy by done. injection Hpy as <-.
    simpl. rewrite map_map. reflexivity.
Qed.

Lemma inline_kept_no_skip_set ref :
  inline_kept h None ref = no_traverse h ref.
Proof. unfold inline_kept. simpl. by rewrite andb_true_r. Qed.

Lemma inline_kept_hashable nd ref :
  hashable h ref = true ->
  inline_kept h (Some nd) ref
  = no_traverse h ref && negb (bool_decide (ref ∈ ss_members nd)).
Proof. intros Hh. unfold inline_kept, in_skip_set, contains. by rewrite Hh. Qed.

End InfoFacts.

(** [test_nodump], [test_ref_nodump]: [None] alone and a tuple of two
    [None], with [None] in the skip set. *)
Example test_nodump :
  py_dump_object_info p64 ∅ shared_heap 10
    (Some {| ss_id := 999; ss_members := {[10]} |}) = inr [].
Proof. reflexivity. Qed.

Example test_ref_nodump :
  let h := <[11 := tuple_object [10; 10]]> shared_heap in
  py_dump_object_info p64 ∅ h 11 (Some {| ss_id := 999; ss_members := {[10]} |})
  = inr (dump_json p64 ∅ h 11).
Proof. vm_compute. reflexivity. Qed.

(** An unhashable referent of an integer type: the test of the loop is not
    guarded, and its error leaves the function. *)
Example unhashable_referent_raises :
  let h := <[1 := tuple_object [2]]> (<[2 := unhashable_int 3]> ∅) in
  py_dump_object_info p64 ∅ h 1 (Some empty_skip_set) = inl TypeError.
Proof. vm_compute. reflexivity. Qed.

(** A tuple that holds the same string twice: the string is written once
    for each time it is held. *)
Example repeated_referent_is_written_twice :
  let h := <[1 := tuple_object [2; 2]]> (<[2 := str_object "a"]> ∅) in
  py_dump_object_info p64 ∅ h 1 None
  = inr (dump_json p64 ∅ h 1 ++ dump_json p64 ∅ h 2 ++ dump_json p64 ∅ h 2).
Proof. vm_compute. reflexivity. Qed.

(** The guard at the head of [py_dump_object_info], on its own.  When the
    test of the object against the skip set raises (the object is
    unhashable), the guard treats the test as answering no: it does not
    return, and the function goes on exactly as it does for an object that
    is not a member.  Whatever the function then returns starts with the
    record of the object; it returns, with the records of the referents
    dumped with the object after that record, when no test of the loop over
    the referents raises. *)
Lemma unhashable_object_is_dumped
    (plat : platform) (reg : registry) (h : heap) (obj : Z) (nd : skip_set) :
  obj <> ss_id nd ->
  contains h nd obj = inl TypeError ->
  skipped h obj (Some nd) = false /\
  py_dump_object_info plat reg h obj (Some nd)
  = dump_unskipped plat reg h obj (Some nd) /\
  (forall obj', obj' <> ss_id nd -> contains h nd obj' = inr false ->
     py_dump_object_info plat reg h obj' (Some nd)
     = dump_unskipped plat reg h obj' (Some nd)) /\
  (forall res,
     py_dump_object_info plat reg h obj (Some nd) = inr res ->
     exists rest, res = dump_json plat reg h obj ++ rest) /\
  (referent_tests_pass h (Some nd) (get_referents h obj) ->
   py_dump_object_info plat reg h obj (Some nd)
   = inr (dump_json plat reg h obj
          ++ concat (map (dump_json plat reg h)
                         (List.filter (inline_kept h (Some nd))
                                      (get_referents h obj))))) /\
  (forall depth,
     hd_error (dump_object_info plat reg h obj (Some nd) depth)
     = Some (record_of plat reg h obj)).
Proof.
  intros Hne Hraise.
  pose proof (skipped_unhashable h obj nd Hne Hraise) as Hs.
  assert (py_dump_object_info plat reg h obj (Some nd)
          = dump_unskipped plat reg h obj (Some nd)) as Hgo
    by (unfold py_dump_object_info; by rewrite Hs).
  split; [exact Hs|]. split; [exact Hgo|]. split; [|split; [|split]].
  - intros obj' Hne' Hno. unfold py_dump_object_info.
    by rewrite (skipped_not_member h obj' nd Hne' Hno).
  - intros res Hres. rewrite Hgo in Hres.
    apply dump_unskipped_inr in Hres. eauto.
  - intros Hok. by apply py_dump_object_info_emitted.
  - intros depth. unfold dump_object_info. by rewrite Hs.
Qed.

(** A list, which cannot be hashed, with one of the strings it holds in
    the skip set. *)
Lemma unhashable_object_is_dumped_witness :
  (50 <> ss_id skip_80 /\
   contains list_heap skip_80 50 = inl TypeError) /\
  py_dump_object_info p64 ∅ list_heap 50 (Some skip_80)
  = inr (dump_json p64 ∅ list_heap 50 ++ dump_json p64 ∅ list_heap 60).
Proof.
  assert (50 <> ss_id skip_80) as Hne by (simpl; lia).
  assert (contains list_heap skip_80 50 = inl TypeError) as Hraise
    by (vm_compute; reflexivity).
  assert (referent_tests_pass list_heap (Some skip_80)
            (get_referents list_heap 50)) as Hok.
  { right. change (get_referents list_heap 50) with [60; 70; 80].
    repeat (constructor; [by vm_compute|]). constructor. }
  split; [by split|].
  destruct (unhashable_object_is_dumped p64 ∅ list_heap 50 skip_80
              Hne Hraise) as (_ & _ & _ & _ & Hdump & _).
  rewrite (Hdump Hok). vm_compute. reflexivity.
Defined.

(** C8, where the code departs from it.  Two tests against the skip set
    can raise: the test of the object, which the guard at the head catches,
    and the test of a referent in the loop, which stands outside any [try].
    For the list [[U(3)]], with [U] a class of integers that cannot be
    hashed, and [set()] as the skip set: the test of the list raises and is
    taken as answering no; the list holds [U(3)], an integer, so the loop
    tests it against the skip set; that test raises, and the error leaves
    [py_dump_object_info]: nothing is emitted, not even the record of the
    list, on any build and with any size registry. *)
Theorem unguarded_referent_test_raises (plat : platform) (reg : registry) :
  contains unhashable_heap empty_skip_set 1 = inl TypeError /\
  skipped unhashable_heap 1 (Some empty_skip_set) = false /\
  get_referents unhashable_heap 1 = [2] /\
  no_traverse unhashable_heap 2 = true /\
  contains unhashable_heap empty_skip_set 2 = inl TypeError /\
  py_dump_object_info plat reg unhashable_heap 1 (Some empty_skip_set)
  = inl TypeError /\
  (forall res,
     py_dump_object_info plat reg unhashable_heap 1 (Some empty_skip_set)
     <> inr res).
Proof.
  assert (py_dump_object_info plat reg unhashable_heap 1 (Some empty_skip_set)
          = inl TypeError) as Hraise by reflexivity.
  do 5 (split; [reflexivity|]). split; [exact Hraise|].
  intros res. rewrite Hraise. discriminate.
Qed.

(** C9. When the record of an object is emitted, what follows it within
    the same call is, in the order of the referents, the record of every
    direct referent that is a string, an integer, a code object, [None] or
    a bare [object] and is not in the skip set ([inline_kept]); the other
    referents give no record, and all of them are listed in [refs] by the
    record of the object.  The call does return a result when no test of
    the loop over the referents raises. *)
Theorem inline_referent_records
    (plat : platform) (reg : registry) (h : heap) (obj : Z)
    (nodump : option skip_set) (o : pyobj) :
  h !! obj = Some o ->
  skipped h obj nodump = false ->
  (forall res,
     py_dump_object_info plat reg h obj nodump = inr res ->
     res = _py_dump_json_obj plat reg obj o
           ++ concat (map (dump_json plat reg h)
                          (List.filter (inline_kept h nodump) (ob_referents o)))) /\
  (referent_tests_pass h nodump (ob_referents o) ->
   exists res, py_dump_object_info plat reg h obj nodump = inr res) /\
  (forall ref,
     inline_kept h nodump ref = true <->
     (exists r, h !! ref = Some r /\
        match ob_payload r with
        | PText _ | PInt _ | PBool _ | PCode | PNone | PObject => True
        | PBytes _ | PFrame _ | POther => False
        end) /\
     in_skip_set h nodump ref = false).
Proof.
  intros Ho Hs.
  assert (get_referents h obj = ob_referents o) as Er
    by (unfold get_referents; by rewrite Ho).
  assert (dump_json plat reg h obj = _py_dump_json_obj plat reg obj o) as Ed
    by (unfold dump_json; by rewrite Ho).
  split; [|split].
  - intros res Hres. unfold py_dump_object_info in Hres. rewrite Hs in Hres.
    apply dump_unskipped_inr in Hres. by rewrite Er, Ed in Hres.
  - intros Hok. rewrite py_dump_object_info_emitted by (by rewrite ?Er). eauto.
  - intros ref. unfold inline_kept, no_traverse.
    rewrite andb_true_iff, negb_true_iff.
    destruct (h !! ref) as [r|] eqn:Eref.
    + split.
      * intros [Hnt Hsk]. split; [|exact Hsk].
        exists r. split; [reflexivity|]. by destruct (ob_payload r).
      * intros [(r' & [= <-] & Hp) Hsk]. split; [|exact Hsk].
        by destruct (ob_payload r).
    + split; [intros [? _]; discriminate|intros [(r' & ? & _) _]; discriminate].
Qed.

Lemma inline_referent_records_witness :
  (list_heap !! 50 = Some (list_object [60; 70; 80]) /\
   skipped list_heap 50 (Some skip_80) = false) /\
  py_dump_object_info p64 ∅ list_heap 50 (Some skip_80)
  = inr (_py_dump_json_obj p64 ∅ 50 (list_object [60; 70; 80])
         ++ _py_dump_json_obj p64 ∅ 60 (int_object 7)).
Proof.
  assert (list_heap !! 50 = Some (list_object [60; 70; 80])) as Ho
    by (vm_compute; reflexivity).
  assert (skipped list_heap 50 (Some skip_80) = false) as Hs
    by (vm_compute; reflexivity).
  split; [by split|].
  destruct (inline_referent_records p64 ∅ list_heap 50 (Some skip_80)
              (list_object [60; 70; 80]) Ho Hs) as (Hres & Hrun & _).
  destruct Hrun as [res Hrun];
    [right; repeat (constructor; [by vm_compute|]); constructor|].
  rewrite Hrun. f_equal. rewrite (Hres res Hrun). vm_compute. reflexivity.
Defined.

(** C10. Dumping the skip-set object itself, with that skip set, gives no
    output: the identity test comes first and no membership test is made,
    whatever it would have answered. *)
Theorem skip_set_itself_is_never_dumped
    (plat : platform) (reg : registry) (h : heap) (nd : skip_set) :
  py_dump_object_info plat reg h (ss_id nd) (Some nd) = inr [] /\
  skipped h (ss_id nd) (Some nd) = true /\
  (forall depth, dump_object_info plat reg h (ss_id nd) (Some nd) depth = []).
Proof.
  unfold py_dump_object_info, dump_object_info, skipped.
  by rewrite bool_decide_eq_true_2.
Qed.

(** [test_nodump_the_nodump]: the skip set is a referent of the tuple, and
    is itself unhashable. *)
Example test_nodump_the_nodump :
  let h := <[1 := tuple_object [2; 999]]>
           (<[2 := int_object 20]>
           (<[999 := container "set" [10; 3] false (Some 2) 200]> shared_heap)) in
  let nodump := {| ss_id := 999; ss_members := {[10; 3]} |} in
  py_dump_object_info p64 ∅ h 999 (Some nodump) = inr [] /\
  py_dump_object_info p64 ∅ h 1 (Some nodump)
  = inr (dump_json p64 ∅ h 1 ++ dump_json p64 ∅ h 2).
Proof. split; vm_compute; reflexivity. Qed.

(** ** The closure dump and the bulk dump *)

Section DumperFacts.
Variable plat : platform.
Variable reg : registry.
Variable h : heap.

Lemma pop_nil : pop [] = None.
Proof. reflexivity. Qed.

Lemma pop_snoc (pending : list Z) (x : Z) : pop (pending ++ [x]) = Some (x, pending).
Proof. unfold pop. rewrite rev_app_distr. simpl. by rewrite rev_involutive. Qed.

(** The [for ref in gc.get_referents(next)] loop. *)
Lemma push_unseen_filter (seen : gset Z) (refs pending : list Z) :
  fold_left (push_unseen seen) refs pending
  = pending ++ filter (fun r => r ∉ seen) refs.
Proof.
  revert pending. induction refs as [|r refs IH]; intros pending; simpl.
  - by rewrite app_nil_r.
  - rewrite IH. unfold push_unseen. rewrite filter_cons.
    case_bool_decide; destruct (decide (r ∉ seen)); try done.
    by rewrite <- app_assoc.
Qed.

Lemma dump_object_info_plain obj :
  dump_object_info plat reg h obj None 0 = [record_of plat reg h obj].
Proof. reflexivity. Qed.

(** One round of the loop. *)
Lemma dump_loop_S fuel (pending : list Z) (x : Z) (seen : gset Z) outf :
  dump_loop plat reg h (S fuel) (pending ++ [x]) seen outf
  = if bool_decide (x ∈ seen) then dump_loop plat reg h fuel pending seen outf
    else dump_loop plat reg h fuel
           (pending ++ filter (fun r => r ∉ {[x]} ∪ seen) (get_referents h x))
           ({[x]} ∪ seen) (outf ++ [record_of plat reg h x]).
Proof.
  simpl. rewrite pop_snoc. case_bool_decide; [reflexivity|].
  by rewrite push_unseen_filter.
Qed.

Lemma dump_loop_mono fuel : forall pending seen outf res,
  dump_loop plat reg h fuel pending seen outf = Some res ->
  dump_loop plat reg h (S fuel) pending seen outf = Some res.
Proof.
  induction fuel as [|fuel IH]; intros pending seen outf res; [discriminate|].
  destruct pending as [|x pending _] using rev_ind; [done|].
  rewrite !(dump_loop_S _ pending x). case_bool_decide; apply IH.
Qed.

Lemma dump_loop_mono_le fuel fuel' pending seen outf res :
  (fuel <= fuel')%nat ->
  dump_loop plat reg h fuel pending seen outf = Some res ->
  dump_loop plat reg h fuel' pending seen outf = Some res.
Proof. induction 1; [done|]. intros. by apply dump_loop_mono; auto. Qed.

Lemma walk_inv_init root : walk_inv h root [root] ∅ [].
Proof.
  split; [constructor|]. split; [|split; [|split]]; simpl.
  - intros a. split; [intros Ha; inversion Ha|set_solver].
  - intros a [Ha|Ha%list_elem_of_singleton]; [set_solver|]. subst. apply rtc_refl.
  - right. by apply list_elem_of_singleton.
  - set_solver.
Qed.

(** Popping an identity already seen. *)
Lemma walk_inv_seen root pending x seen outf :
  x ∈ seen -> walk_inv h root (pending ++ [x]) seen outf ->
  walk_inv h root pending seen outf.
Proof.
  intros Hx (Hnd & Hout & Hreach & Hroot & Hclosed).
  split; [done|]. split; [done|]. split; [|split].
  - intros a [Ha|Ha]; apply Hreach; [by left|right]. set_solver.
  - destruct Hroot as [|Hr]; [by left|]. set_solver.
  - intros a b Ha Hb. destruct (Hclosed a b Ha Hb) as [|Hb']; [by left|].
    set_solver.
Qed.

(** Popping a new identity: it is recorded, and its unseen referents are
    pushed. *)
Lemma walk_inv_unseen root pending x seen outf :
  x ∉ seen -> walk_inv h root (pending ++ [x]) seen outf ->
  walk_inv h root
    (pending ++ filter (fun r => r ∉ {[x]} ∪ seen) (get_referents h x))
    ({[x]} ∪ seen) (outf ++ [record_of plat reg h x]).
Proof.
  intros Hx (Hnd & Hout & Hreach & Hroot & Hclosed).
  assert (reachable h root x) as Hrx by (apply Hreach; right; set_solver).
  split; [|split; [|split; [|split]]].
  - rewrite map_app. simpl. apply NoDup_app.
    split; [done|]. split; [|apply NoDup_singleton].
    intros a Ha ->%list_elem_of_singleton. by apply Hx, Hout.
  - intros a. rewrite map_app, elem_of_app. simpl.
    rewrite list_elem_of_singleton, Hout. set_solver.
  - intros a [Ha|Ha].
    + apply elem_of_union in Ha as [->%elem_of_singleton|Ha]; [done|].
      apply Hreach; by left.
    + apply elem_of_app in Ha as [Ha|Ha]; [apply Hreach; right; set_solver|].
      apply list_elem_of_filter in Ha as [_ Ha].
      eapply rtc_r; [exact Hrx|exact Ha].
  - destruct Hroot as [|Hr]; [left; set_solver|].
    apply elem_of_app in Hr as [| ->%list_elem_of_singleton];
      [right; apply elem_of_app; by left|left; set_solver].
  - intros a b Ha Hb.
    destruct (decide (b ∈ {[x]} ∪ seen)) as [|Hnb]; [by left|right].
    apply elem_of_union in Ha as [->%elem_of_singleton|Ha].
    + apply elem_of_app. right. by apply list_elem_of_filter.
    + destruct (Hclosed a b Ha Hb) as [|Hb']; [set_solver|].
      apply elem_of_app in Hb' as [| ->%list_elem_of_singleton]; set_solver.
Qed.

(** When nothing is pending, what was seen is what is reachable. *)
Lemma walk_inv_final root seen outf :
  walk_inv h root [] seen outf ->
  NoDup (map rec_address outf) /\
  forall a, a ∈ map rec_address outf <-> reachable h root a.
Proof.
  intros (Hnd & Hout & Hreach & Hroot & Hclosed). split; [done|].
  intros a. rewrite Hout. split; [intros; apply Hreach; by left|].
  assert (root ∈ seen) as Hr by (destruct Hroot as [|Hr]; [done|inversion Hr]).
  intros Hra. revert Hr. clear Hroot Hreach.
  induction Hra as [|x y z Hxy _ IH]; [done|].
  intros Hx. apply IH.
  destruct (Hclosed x y Hx Hxy) as [|Hy]; [done|inversion Hy].
Qed.

Lemma dump_loop_correct root fuel : forall pending seen outf res,
  walk_inv h root pending seen outf ->
  dump_loop plat reg h fuel pending seen outf = Some res ->
  NoDup (map rec_address res) /\
  forall a, a ∈ map rec_address res <-> reachable h root a.
Proof.
  induction fuel as [|fuel IH]; intros pending seen outf res Hinv; [discriminate|].
  destruct pending as [|x pending _] using rev_ind.
  - simpl. intros [= <-]. by eapply walk_inv_final.
  - rewrite dump_loop_S. case_bool_decide as Hx; apply IH.
    + by eapply walk_inv_seen.
    + by apply walk_inv_unseen.
Qed.

Lemma get_referents_closed a b :
  heap_closed h -> a ∈ dom h -> b ∈ get_referents h a -> b ∈ dom h.
Proof.
  intros Hc [o Ho]%elem_of_dom Hb. unfold get_referents in Hb. rewrite Ho in Hb.
  specialize (Hc a o Ho). simpl in Hc. rewrite Forall_forall in Hc. by apply Hc.
Qed.

(** The loop ends: every round either shortens [pending] with [seen] as it
    was, or adds a live identity to [seen]. *)
Lemma dump_loop_terminates :
  heap_closed h ->
  forall n (seen : gset Z) (pending : list Z) outf,
    (size (dom h ∖ seen) <= n)%nat ->
    Forall (fun a => a ∈ dom h) pending ->
    exists fuel res, dump_loop plat reg h fuel pending seen outf = Some res.
Proof.
  intros Hc. induction n as [|n IHn]; intros seen pending.
  - induction pending as [|x pending IHp] using rev_ind; intros outf Hsz Hp.
    + by exists 1%nat, outf.
    + rewrite Forall_app, Forall_singleton in Hp. destruct Hp as [Hp Hx].
      assert (x ∈ seen) as Hseen.
      { destruct (decide (x ∈ seen)) as [|Hn]; [done|].
        assert (x ∈ dom h ∖ seen) as Hin by set_solver.
        assert (size (dom h ∖ seen) = 0%nat) as Hz by lia.
        apply size_empty_iff in Hz. set_solver. }
      destruct (IHp outf Hsz Hp) as (fuel & res & Hrun).
      exists (S fuel), res. rewrite dump_loop_S.
      by case_bool_decide.
  - induction pending as [|x pending IHp] using rev_ind; intros outf Hsz Hp.
    + by exists 1%nat, outf.
    + rewrite Forall_app, Forall_singleton in Hp. destruct Hp as [Hp Hx].
      destruct (decide (x ∈ seen)) as [Hseen|Hseen].
      * destruct (IHp outf Hsz Hp) as (fuel & res & Hrun).
        exists (S fuel), res. rewrite dump_loop_S. by case_bool_decide.
      * edestruct (IHn ({[x]} ∪ seen)
          (pending ++ filter (fun r => r ∉ {[x]} ∪ seen) (get_referents h x))
          (outf ++ [record_of plat reg h x])) as (fuel & res & Hrun).
        { assert (dom h ∖ ({[x]} ∪ seen) ⊂ dom h ∖ seen) as Hsub by set_solver.
          apply subset_size in Hsub. lia. }
        { apply Forall_app. split; [done|].
          apply Forall_forall. intros b [_ Hb]%list_elem_of_filter.
          by eapply get_referents_closed. }
        exists (S fuel), res. rewrite dump_loop_S. by case_bool_decide.
Qed.

End DumperFacts.

(** The closure dump of the list of [cycle_heap]: the list, then the string
    (the last referent pushed), then the tuple; the list is met again and
    not written again. *)
Example dump_all_referenced_cycle :
  map rec_address <$> dump_all_referenced p64 ∅ cycle_heap 10 1
  = Some [1; 3; 2].
Proof. vm_compute. reflexivity. Qed.

Example dump_all_referenced_no_fuel :
  dump_all_referenced p64 ∅ cycle_heap 3 1 = None.
Proof. vm_compute. reflexivity. Qed.

(** C2, as the specification states it, fails for the bulk dump: with the
    default depth of 1, a string that two tuples hold is written after each
    of them, and its address appears twice in the output of the one
    [dump_gc_objects] call. *)
Lemma bulk_dump_repeats_address :
  map rec_address (dump_gc_objects p64 ∅ shared_heap [10] 999 [100; 200] 1)
  = [10; 100; 300; 200; 300]
  /\ ~ NoDup (map rec_address
               (dump_gc_objects p64 ∅ shared_heap [10] 999 [100; 200] 1)).
Proof.
  assert (map rec_address
            (dump_gc_objects p64 ∅ shared_heap [10] 999 [100; 200] 1)
          = [10; 100; 300; 200; 300]) as E by (vm_compute; reflexivity).
  split; [exact E|]. rewrite E. intros Hnd.
  apply NoDup_cons in Hnd as [_ Hnd]. apply NoDup_cons in Hnd as [_ Hnd].
  apply NoDup_cons in Hnd as [Hin _]. apply Hin. set_solver.
Qed.

(** C2, amended to the closure dump.  On a heap whose references all point
    to live objects, [dump_all_referenced] from a live root ends (with
    enough fuel, and with any more fuel to the same effect); no two of the
    records it writes carry the same address; the addresses written are
    exactly the identities reachable from the root; and a round of its loop
    that pops an identity already seen writes nothing and leaves the set as
    it was. *)
Theorem closure_dump_emits_each_identity_once
    (plat : platform) (reg : registry) (h : heap) (root : Z) :
  heap_closed h -> root ∈ dom h ->
  (exists fuel out,
     (forall fuel', (fuel <= fuel')%nat ->
        dump_all_referenced plat reg h fuel' root = Some out) /\
     NoDup (map rec_address out) /\
     (forall a, a ∈ map rec_address out <-> reachable h root a)) /\
  (forall fuel (pending : list Z) (a : Z) (seen : gset Z) outf,
     a ∈ seen ->
     dump_loop plat reg h (S fuel) (pending ++ [a]) seen outf
     = dump_loop plat reg h fuel pending seen outf).
Proof.
  intros Hc Hroot. split.
  - destruct (dump_loop_terminates plat reg h Hc
                (size (dom h ∖ (∅ : gset Z))) ∅ [root] [])
      as (fuel & res & Hrun); [lia|by apply Forall_singleton|].
    exists fuel, res.
    split; [|by eapply dump_loop_correct, Hrun; apply walk_inv_init].
    intros fuel' Hle. by eapply dump_loop_mono_le.
  - intros fuel pending a seen outf Ha. rewrite dump_loop_S. by case_bool_decide.
Qed.

Lemma closure_dump_emits_each_identity_once_witness :
  (heap_closed cycle_heap /\ 1 ∈ dom cycle_heap) /\
  exists fuel out,
    (forall fuel', (fuel <= fuel')%nat ->
       dump_all_referenced p64 ∅ cycle_heap fuel' 1 = Some out) /\
    NoDup (map rec_address out) /\
    (forall a, a ∈ map rec_address out <-> reachable cycle_heap 1 a).
Proof.
  assert (heap_closed cycle_heap) as Hc
    by (apply (bool_decide_unpack _); vm_compute; exact I).
  assert (1 ∈ dom cycle_heap) as Hroot
    by (apply (bool_decide_unpack _); vm_compute; exact I).
  split; [by split|].
  exact (proj1 (closure_dump_emits_each_identity_once p64 ∅ cycle_heap 1 Hc Hroot)).
Defined.
(** * Further properties of the escaping functions *)

Section EscapeFacts.
Local Open Scope N_scope.

Lemma all_printable_app s t :
  all_printable s -> all_printable t -> all_printable (s ++ t).
Proof. unfold all_printable. rewrite Forall_app. auto. Qed.

Lemma all_printable_concat (ls : list str) :
  Forall all_printable ls -> all_printable (concat ls).
Proof. intros H. by apply Forall_concat. Qed.

Lemma all_printable_lit_check s :
  forallb printable (lit s) = true -> all_printable (lit s).
Proof.
  unfold all_printable. induction (lit s) as [|a l IH]; simpl; [constructor|].
  intros [Ha Hl]%andb_true_iff. constructor; auto.
Qed.

Lemma hex_digit_printable d : d < 16 -> printable (hex_digit d) = true.
Proof.
  intros Hd. rewrite <- (N2Nat.id d).
  assert (N.to_nat d < 16)%nat as Hk by lia.
  revert Hk. generalize (N.to_nat d) as k. intros k Hk.
  do 16 (destruct k as [|k]; [reflexivity|]). lia.
Qed.

Lemma four_digits_printable n : n < 65536 -> all_printable (four_digits n).
Proof.
  intros Hn. unfold four_digits.
  repeat (constructor; [apply hex_digit_printable; divmod_lia|]). constructor.
Qed.

Lemma u_escape_printable n :
  n < 65536 -> all_printable (lit "\u" ++ four_digits n).
Proof.
  intros Hn. apply all_printable_app; [|by apply four_digits_printable].
  by apply all_printable_lit_check.
Qed.

Lemma printable_ascii_of_N c :
  32 <= c -> c <= 126 -> printable (ascii_of_N c) = true.
Proof.
  intros H1 H2. unfold printable. rewrite N_ascii_embedding by lia.
  apply andb_true_iff. split; by apply N.leb_le.
Qed.

Lemma text_piece_printable c : code_point c -> all_printable (text_piece c).
Proof.
  intros Hc. destruct (N.ltb_spec 0xffff c) as [Hbig|Hbmp].
  - rewrite text_piece_non_bmp by assumption.
    destruct (surrogates_in_range c Hbig Hc) as (Hh & Hl & _).
    unfold is_high, is_low in Hh, Hl. rewrite andb_true_iff, !N.leb_le in Hh, Hl.
    rewrite app_assoc. apply all_printable_app; apply u_escape_printable; lia.
  - unfold text_piece. destruct (N.ltb_spec 0xffff c) as [|_]; [lia|].
    destruct ((c <=? 0x1f) || (0x7e <? c)) eqn:Eesc.
    + rewrite format_04x_16bit by lia. apply u_escape_printable. lia.
    + apply orb_false_iff in Eesc as [E1%N.leb_gt E2%N.ltb_ge].
      assert (printable (ascii_of_N c) = true) as Hp
        by (apply printable_ascii_of_N; lia).
      destruct (N_in c simple_escapes); repeat constructor; done.
Qed.

Lemma _text_to_json_printable u :
  Forall code_point u -> all_printable (_text_to_json u).
Proof.
  intros Hu. rewrite _text_to_json_pieces.
  constructor; [reflexivity|]. apply all_printable_app; [|by repeat constructor].
  apply all_printable_concat, Forall_map.
  eapply Forall_impl; [exact Hu|]. apply text_piece_printable.
Qed.

Lemma bytes_code_points (s : list Byte.byte) :
  Forall code_point (map Byte.to_N s).
Proof.
  apply Forall_map, Forall_true. intros b.
  pose proof (byte_to_N_bound b). unfold code_point. simpl. lia.
Qed.

Lemma bytes_pair_free (s : list Byte.byte) : pair_free (map Byte.to_N s) = true.
Proof.
  apply pair_free_no_high, Forall_map, Forall_true. intros b.
  pose proof (byte_to_N_bound b). unfold is_high. simpl.
  apply andb_false_iff. left. apply N.leb_gt. lia.
Qed.

Lemma length_bytes_piece b :
  (1 <= length (bytes_piece (Byte.to_N b)) <= 6)%nat.
Proof. destruct b; simpl; lia. Qed.

Lemma length_b2a_hex bs : length (b2a_hex bs) = (2 * length bs)%nat.
Proof. unfold b2a_hex. induction bs; simpl; lia. Qed.

Lemma length_text_piece c : (1 <= length (text_piece c) <= 12)%nat.
Proof.
  unfold text_piece. destruct (N.ltb_spec 0xffff c) as [Hbig|Hbmp].
  - assert (length (b2a_hex (utf_16_be c)) = 8%nat) as E.
    { rewrite length_b2a_hex. unfold utf_16_be.
      by destruct (N.ltb_spec c 0x10000); [lia|]. }
    rewrite !length_app, length_take, length_drop, E. simpl. lia.
  - destruct ((c <=? 0x1f) || (0x7e <? c)).
    + rewrite format_04x_16bit by lia. simpl. lia.
    + destruct (N_in c simple_escapes); simpl; lia.
Qed.

Lemma length_concat_bounds {A} (f : A -> str) (l : list A) (lo hi : nat) :
  (forall x, lo <= length (f x) <= hi)%nat ->
  (lo * length l <= length (concat (map f l)) <= hi * length l)%nat.
Proof.
  intros Hf. induction l as [|x l IH]; simpl; [lia|].
  rewrite length_app. specialize (Hf x). lia.
Qed.

Lemma plain_char_piece c : plain_char c = true -> text_piece c = [ascii_of_N c].
Proof.
  unfold plain_char. rewrite !andb_true_iff, negb_true_iff, !N.leb_le.
  intros [[H1 H2] Hs]. unfold text_piece.
  destruct (N.ltb_spec 0xffff c); [lia|].
  destruct (N.leb_spec c 0x1f); [lia|]. destruct (N.ltb_spec 0x7e c); [lia|].
  cbn [orb]. by rewrite Hs.
Qed.

End EscapeFacts.

(** X1. Whatever the bytes, the escape of a byte string is made of
    printable ASCII characters only: no control character and nothing
    above the tilde ever reaches the output. *)
Theorem bytes_escape_is_printable_ascii (s : list Byte.byte) :
  all_printable (_bytes_to_json s).
Proof.
  rewrite _bytes_to_json_pieces.
  constructor; [reflexivity|]. apply all_printable_app; [|by repeat constructor].
  apply all_printable_concat, Forall_map, Forall_true. intros b.
  pose proof (byte_to_N_bound b) as Hb.
  rewrite <- text_piece_bmp by lia.
  apply text_piece_printable. unfold code_point. lia.
Qed.

(** X2. The escape of a text of code points is made of printable ASCII
    characters only, whatever the code points, surrogates and characters
    above the basic plane included. *)
Theorem text_escape_is_printable_ascii (u : text) :
  Forall code_point u -> all_printable (_text_to_json u).
Proof.
  intros Hu. rewrite _text_to_json_pieces.
  constructor; [reflexivity|]. apply all_printable_app; [|by repeat constructor].
  apply all_printable_concat, Forall_map.
  induction Hu as [|c u Hc _ IH]; constructor; [|exact IH].
  by apply text_piece_printable.
Qed.

Lemma text_escape_is_printable_ascii_witness :
  Forall code_point [0x0a; 0xe9; 0x12345; 0x41]%N /\
  all_printable (_text_to_json [0x0a; 0xe9; 0x12345; 0x41]%N).
Proof.
  assert (Forall code_point [0x0a; 0xe9; 0x12345; 0x41]%N) as Hu
    by (repeat constructor).
  split; [exact Hu|]. exact (text_escape_is_printable_ascii _ Hu).
Defined.

(** X3. Different byte strings have different escapes. *)
Theorem bytes_escape_injective (s1 s2 : list Byte.byte) :
  _bytes_to_json s1 = _bytes_to_json s2 <-> s1 = s2.
Proof.
  split; [|by intros ->]. intros E.
  pose proof (json_decode_bytes s1) as H1. rewrite E, json_decode_bytes in H1.
  by injection H1.
Qed.

(** X4. Two texts of code points in which no high surrogate is directly
    followed by a low one, and which have the same escape, are the same
    text. *)
Theorem text_escape_injective (u v : text) :
  Forall code_point u -> pair_free u = true ->
  Forall code_point v -> pair_free v = true ->
  _text_to_json u = _text_to_json v -> u = v.
Proof.
  intros Hu Hpu Hv Hpv E.
  pose proof (json_decode_text u Hu Hpu) as H1.
  rewrite E, (json_decode_text v Hv Hpv) in H1. by injection H1.
Qed.

Lemma text_escape_injective_witness :
  (Forall code_point [0x12345]%N /\ pair_free [0x12345]%N = true /\
   Forall code_point [0xD808; 0x41; 0xDF45]%N /\
   pair_free [0xD808; 0x41; 0xDF45]%N = true) /\
  (_text_to_json [0x12345]%N = _text_to_json [0xD808; 0x41; 0xDF45]%N ->
   [0x12345]%N = [0xD808; 0x41; 0xDF45]%N).
Proof.
  assert (Forall code_point [0x12345]%N) as Hu by (repeat constructor).
  assert (Forall code_point [0xD808; 0x41; 0xDF45]%N) as Hv
    by (repeat constructor).
  split; [by repeat split|].
  exact (text_escape_injective _ _ Hu eq_refl Hv eq_refl).
Defined.

(** X5. A byte string is escaped exactly as the text whose code points are
    its bytes. *)
Theorem bytes_escape_as_text_escape (s : list Byte.byte) :
  _bytes_to_json s = _text_to_json (map Byte.to_N s).
Proof.
  rewrite _bytes_to_json_pieces, _text_to_json_pieces, map_map.
  do 3 f_equal. apply map_ext. intros b.
  unfold text_piece, bytes_piece. pose proof (byte_to_N_bound b).
  by destruct (N.ltb_spec 0xffff (Byte.to_N b)); [lia|].
Qed.

(** X6. An escape has two quotes and from one to six characters for each
    byte, from one to twelve for each code point; the escapes of the
    100-unit previews are at most 602 and 1202 characters long. *)
Theorem escape_length_bounds (s : list Byte.byte) (u : text) :
  (length s + 2 <= length (_bytes_to_json s) <= 6 * length s + 2)%nat /\
  (length u + 2 <= length (_text_to_json u) <= 12 * length u + 2)%nat /\
  (length (_bytes_to_json (take 100 s)) <= 602)%nat /\
  (length (_text_to_json (take 100 u)) <= 1202)%nat.
Proof.
  assert (forall s : list Byte.byte,
            length s + 2 <= length (_bytes_to_json s) <= 6 * length s + 2)%nat
    as Hb.
  { intros s'. rewrite _bytes_to_json_pieces. simpl. rewrite length_app. simpl.
    pose proof (length_concat_bounds (fun b => bytes_piece (Byte.to_N b)) s' 1 6
                  length_bytes_piece). lia. }
  assert (forall u : text,
            length u + 2 <= length (_text_to_json u) <= 12 * length u + 2)%nat
    as Ht.
  { intros u'. rewrite _text_to_json_pieces. simpl. rewrite length_app. simpl.
    pose proof (length_concat_bounds text_piece u' 1 12 length_text_piece). lia. }
  split; [apply Hb|]. split; [apply Ht|]. split.
  - pose proof (Hb (take 100 s)). rewrite length_take in *. lia.
  - pose proof (Ht (take 100 u)). rewrite length_take in *. lia.
Qed.

(** X7. A text of printable ASCII characters other than the backslash, the
    slash and the double quote is escaped to itself between two quotes. *)
Theorem plain_text_passes_through (u : text) :
  forallb plain_char u = true ->
  _text_to_json u = [dquote] ++ map ascii_of_N u ++ [dquote].
Proof.
  intros Hu. rewrite _text_to_json_pieces. simpl. do 2 f_equal.
  induction u as [|c u IH]; [reflexivity|].
  simpl in Hu. apply andb_true_iff in Hu as [Hc Hu].
  simpl. rewrite (plain_char_piece c Hc), IH by assumption. reflexivity.
Qed.

Lemma plain_text_passes_through_witness :
  forallb plain_char (text_of "a string, plain") = true /\
  _text_to_json (text_of "a string, plain")
  = [dquote] ++ lit "a string, plain" ++ [dquote].
Proof.
  split; [reflexivity|].
  exact (plain_text_passes_through (text_of "a string, plain") eq_refl).
Defined.

(** * Further properties of the record serializer *)

Section RecordFacts.

Lemma uint_decimal (d : Decimal.uint) :
  Forall (fun a => decimal_char a = true) (lit (NilEmpty.string_of_uint d)).
Proof. induction d; simpl; constructor; done. Qed.

Lemma format_d_decimal z : Forall (fun a => decimal_char a = true) (format_d z).
Proof.
  unfold format_d. destruct z as [|p|p]; simpl.
  - by repeat constructor.
  - unfold NilZero.string_of_uint. destruct (Pos.to_uint p) eqn:E;
      try (rewrite <- E; apply uint_decimal). by repeat constructor.
  - constructor; [done|]. unfold NilZero.string_of_uint.
    destruct (Pos.to_uint p) eqn:E;
      try (rewrite <- E; apply uint_decimal). by repeat constructor.
Qed.

Lemma decimal_char_printable a : decimal_char a = true -> printable a = true.
Proof.
  unfold decimal_char, printable.
  intros [E%Ascii.eqb_eq|[H1 H2]%andb_true_iff]%orb_true_iff; [by subst|].
  apply N.leb_le in H1, H2. apply andb_true_iff. split; apply N.leb_le; lia.
Qed.

Lemma format_d_printable z : all_printable (format_d z).
Proof.
  eapply Forall_impl; [apply format_d_decimal|]. apply decimal_char_printable.
Qed.

Lemma format_d_no_comma z : ","%char ∉ format_d z.
Proof.
  intros Hin. pose proof (format_d_decimal z) as Hd.
  rewrite Forall_forall in Hd. by specialize (Hd _ Hin).
Qed.

Lemma lit_inj s t : lit s = lit t -> s = t.
Proof.
  intros E. rewrite <- (string_of_list_ascii_of_string s),
    <- (string_of_list_ascii_of_string t). unfold lit in E. by rewrite E.
Qed.

Lemma to_int_not_nil z :
  Z.to_int z <> Decimal.Pos Decimal.Nil /\ Z.to_int z <> Decimal.Neg Decimal.Nil.
Proof.
  destruct z as [|p|p]; simpl; split; try discriminate;
    intros [= E]; by apply (Unsigned.to_uint_nonnil p).
Qed.

Lemma format_d_inj a b : format_d a = format_d b -> a = b.
Proof.
  intros E%lit_inj. apply to_int_inj.
  destruct (to_int_not_nil a) as [Ha1 Ha2], (to_int_not_nil b) as [Hb1 Hb2].
  pose proof (NilZero.isi _ Ha1 Ha2) as Ia. rewrite E, NilZero.isi in Ia by done.
  by injection Ia.
Qed.

(** Two strings that agree up to and including the first occurrence of a
    separator have the same part in front of it. *)
Lemma split_at_first (c : ascii) : forall x y r r' : str,
  c ∉ x -> c ∉ y -> x ++ c :: r = y ++ c :: r' -> x = y.
Proof.
  induction x as [|a x IH]; intros [|b y] r r' Hx Hy E; simpl in E.
  - done.
  - injection E as <- _. exfalso. apply Hy. by left.
  - injection E as -> _. exfalso. apply Hx. by left.
  - injection E as -> E. f_equal. apply (IH y r r'); [| |done].
    + intros H. apply Hx. by right.
    + intros H. apply Hy. by right.
Qed.

Variable plat : platform.
Variable reg : registry.

Lemma record_line_shape id_obj o :
  exists rest,
    _py_dump_json_obj plat reg id_obj o
    = (lit "{" ++ quoted "address" ++ lit ": ") ++ format_d id_obj
      ++ ","%char :: rest.
Proof.
  unfold _py_dump_json_obj, join. rewrite !concat_app. simpl concat at 1.
  rewrite app_nil_r. simpl. rewrite <- !app_assoc. simpl.
  eexists. reflexivity.
Qed.

Lemma sep_join_printable (parts : list str) :
  Forall all_printable parts -> all_printable (sep_join (lit ", ") parts).
Proof.
  induction 1 as [|x parts Hx Hp IH]; [constructor|].
  destruct parts as [|y parts]; [done|].
  change (sep_join (lit ", ") (x :: y :: parts))
    with (x ++ lit ", " ++ sep_join (lit ", ") (y :: parts)).
  apply all_printable_app; [done|]. apply all_printable_app; [|done].
  by apply all_printable_lit_check.
Qed.

Lemma field_printable k :
  forallb printable (lit k) = true -> all_printable (field k).
Proof.
  intros Hk. unfold field, quoted.
  repeat apply all_printable_app;
    try (by apply all_printable_lit_check); by repeat constructor.
Qed.

Lemma value_field_printable o :
  printable_fields o -> Forall all_printable (value_field plat o).
Proof.
  intros (_ & _ & Hp). unfold value_field.
  assert (all_printable (field "value")) as Hfield by (by apply field_printable).
  destruct (ob_payload o) as [b|u|[|]|n|co| | | |]; try (by constructor).
  - apply Forall_singleton, all_printable_app; [done|].
    rewrite _bytes_to_json_as_text.
    apply _text_to_json_printable, bytes_code_points.
  - apply Forall_singleton, all_printable_app; [done|].
    apply _text_to_json_printable. by apply Forall_take.
  - apply Forall_singleton, all_printable_app; [done|].
    unfold quoted. by repeat constructor.
  - apply Forall_singleton, all_printable_app; [done|].
    unfold quoted. by repeat constructor.
  - destruct (Z.abs n <=? sys_maxsize plat); [|by constructor].
    apply Forall_singleton, all_printable_app; [done|apply format_d_printable].
  - apply Forall_singleton, all_printable_app; [done|].
    apply all_printable_app; [by repeat constructor|].
    apply all_printable_app; [done|by repeat constructor].
Qed.

Lemma record_line_parts id_obj o :
  _py_dump_json_obj plat reg id_obj o
  = ((lit "{" ++ quoted "address" ++ lit ": " ++ format_d id_obj
      ++ field "type" ++ _str_to_json (ob_type_name o)
      ++ field "size" ++ format_d (size_of plat reg o))
     ++ concat (name_field o) ++ concat (len_field o)
     ++ concat (value_field plat o)
     ++ (field "refs" ++ lit "[")
     ++ sep_join (lit ", ") (map format_d (ob_referents o))
     ++ lit "]" ++ lit "}") ++ [newline].
Proof.
  unfold _py_dump_json_obj, join. rewrite !concat_app. cbn [concat].
  rewrite !app_nil_r, <- !app_assoc. reflexivity.
Qed.

Lemma record_body_printable id_obj o :
  printable_fields o ->
  exists body,
    _py_dump_json_obj plat reg id_obj o = body ++ [newline] /\
    all_printable body.
Proof.
  intros Hf. pose proof (value_field_printable o Hf) as Hv.
  destruct Hf as (Ht & Hn & _).
  rewrite record_line_parts. eexists. split; [reflexivity|].
  apply all_printable_app; [|apply all_printable_app; [|apply all_printable_app;
    [|apply all_printable_app; [|apply all_printable_app;
    [|apply all_printable_app; [|apply all_printable_app]]]]]].
  - apply all_printable_app; [by apply all_printable_lit_check|].
    apply all_printable_app; [unfold quoted; by repeat constructor|].
    apply all_printable_app; [by apply all_printable_lit_check|].
    apply all_printable_app; [apply format_d_printable|].
    apply all_printable_app; [by apply field_printable|].
    apply all_printable_app; [by apply _text_to_json_printable|].
    apply all_printable_app; [by apply field_printable|apply format_d_printable].
  - apply all_printable_concat. unfold name_field.
    destruct (ob_name o) as [name|] eqn:En; [|constructor].
    apply Forall_singleton, all_printable_app; [by apply field_printable|].
    apply _text_to_json_printable. by apply Hn.
  - apply all_printable_concat. unfold len_field.
    destruct (ob_len o); [|constructor].
    apply Forall_singleton, all_printable_app;
      [by apply field_printable|apply format_d_printable].
  - by apply all_printable_concat.
  - apply all_printable_app; [by apply field_printable|].
    by apply all_printable_lit_check.
  - apply sep_join_printable, Forall_map, Forall_true. intros r.
    apply format_d_printable.
  - by apply all_printable_lit_check.
  - by apply all_printable_lit_check.
Qed.

End RecordFacts.

(** X8. The record of an object is one line: it ends with a newline, and
    before it there are printable ASCII characters only (so no other
    newline), whatever the strings the object holds, as long as its text
    fields hold code points and a frame's code has a printable name. *)
Theorem record_is_one_printable_line
    (plat : platform) (reg : registry) (id_obj : Z) (o : pyobj) :
  printable_fields o ->
  exists body,
    _py_dump_json_obj plat reg id_obj o = body ++ [newline] /\
    all_printable body /\ newline ∉ body.
Proof.
  intros Hf. destruct (record_body_printable plat reg id_obj o Hf) as (body & E & Hp).
  exists body. split; [exact E|]. split; [exact Hp|].
  intros Hin. unfold all_printable in Hp. rewrite Forall_forall in Hp.
  by specialize (Hp _ Hin).
Qed.

Lemma record_is_one_printable_line_witness :
  printable_fields (leaf "str" (PText [116; 10; 0x12345]%N) (Some 3) 52) /\
  exists body,
    _py_dump_json_obj p64 ∅ 5 (leaf "str" (PText [116; 10; 0x12345]%N) (Some 3) 52)
    = body ++ [newline] /\
    all_printable body /\ newline ∉ body.
Proof.
  assert (printable_fields
            (leaf "str" (PText [116; 10; 0x12345]%N) (Some 3) 52)) as Hf.
  { split; [|split]; simpl.
    - repeat constructor.
    - intros name [=].
    - repeat constructor. }
  split; [exact Hf|].
  exact (record_is_one_printable_line p64 ∅ 5 _ Hf).
Defined.

(** X9. The records of two objects with different identities are
    different lines, whatever else the objects hold. *)
Theorem record_lines_differ_by_address
    (plat plat' : platform) (reg reg' : registry) (a a' : Z) (o o' : pyobj) :
  a <> a' ->
  _py_dump_json_obj plat reg a o <> _py_dump_json_obj plat' reg' a' o'.
Proof.
  intros Hne. destruct (record_line_shape plat reg a o) as [r ->].
  destruct (record_line_shape plat' reg' a' o') as [r' ->].
  intros E%app_inv_head. apply Hne, format_d_inj.
  eapply split_at_first; [| |exact E]; apply format_d_no_comma.
Qed.

Lemma record_lines_differ_by_address_witness :
  7 <> 17 /\
  _py_dump_json_obj p64 ∅ 7 (int_object 1) <> _py_dump_json_obj p64 ∅ 17 (int_object 1).
Proof.
  assert (7 <> 17) as Hne by lia.
  split; [exact Hne|].
  exact (record_lines_differ_by_address p64 p64 ∅ ∅ 7 17 (int_object 1)
           (int_object 1) Hne).
Defined.

(** * Further properties of [py_dump_object_info] *)

Section InfoFacts2.
Variable plat : platform.
Variable reg : registry.
Variable h : heap.

Lemma child_fold_raises nd refs : forall acc,
  (exists e, fold_left (child_step plat reg h (Some nd)) refs (inr acc) = inl e)
  <-> Exists (raising_referent h) refs.
Proof.
  induction refs as [|r refs IH]; intros acc; simpl.
  - split; [intros [e [=]]|intros H; inversion H].
  - rewrite Exists_cons. unfold raising_referent at 1.
    destruct (no_traverse h r) eqn:Ent.
    + unfold contains. destruct (hashable h r) eqn:Eh.
      * case_bool_decide; rewrite IH; naive_solver.
      * rewrite child_step_error. split; [auto|eauto].
    + rewrite IH. naive_solver.
Qed.

Lemma dump_json_nonempty obj o : h !! obj = Some o -> dump_json plat reg h obj <> [].
Proof.
  intros Ho. unfold dump_json. rewrite Ho.
  destruct (record_line_shape plat reg obj o) as [rest ->]. discriminate.
Qed.

Lemma skipped_true_iff obj nodump :
  skipped h obj nodump = true <->
  exists nd, nodump = Some nd /\
    (obj = ss_id nd \/ (hashable h obj = true /\ obj ∈ ss_members nd)).
Proof.
  unfold skipped. destruct nodump as [nd|]; [|naive_solver].
  case_bool_decide as Hid; [naive_solver|].
  unfold contains. destruct (hashable h obj) eqn:Eh.
  - case_bool_decide; naive_solver.
  - naive_solver.
Qed.

End InfoFacts2.

(** X10. The test of a referent against the skip set stands outside the
    [try]: when the guard lets the object through and one of the referents
    the loop tests (a string, an integer, a code object, [None], a bare
    object) is unhashable, [py_dump_object_info] raises [TypeError],
    whatever the other referents and whichever comes first: no part of the
    output is returned. *)
Theorem referent_test_error_propagates
    (plat : platform) (reg : registry) (h : heap) (obj : Z) (nd : skip_set) :
  skipped h obj (Some nd) = false ->
  Exists (raising_referent h) (get_referents h obj) ->
  py_dump_object_info plat reg h obj (Some nd) = inl TypeError.
Proof.
  intros Hs Hex. unfold py_dump_object_info, dump_unskipped. rewrite Hs.
  apply (child_fold_raises plat reg h nd (get_referents h obj) []) in Hex
    as [[] ->].
  reflexivity.
Qed.

Lemma referent_test_error_propagates_witness :
  let h := <[1 := tuple_object [60; 2; 80]]>
           (<[2 := unhashable_int 3]> list_heap) in
  (skipped h 1 (Some skip_80) = false /\
   Exists (raising_referent h) (get_referents h 1)) /\
  py_dump_object_info p64 ∅ h 1 (Some skip_80) = inl TypeError.
Proof.
  intros h.
  assert (skipped h 1 (Some skip_80) = false) as Hs by (vm_compute; reflexivity).
  assert (Exists (raising_referent h) (get_referents h 1)) as Hex.
  { change (get_referents h 1) with [60; 2; 80].
    apply Exists_cons_tl, Exists_cons_hd. split; vm_compute; reflexivity. }
  split; [by split|].
  exact (referent_test_error_propagates p64 ∅ h 1 skip_80 Hs Hex).
Defined.

(** X11. For a live object, [py_dump_object_info] returns the empty output
    exactly when there is a skip set and the object is that skip set or a
    hashable member of it. *)
Theorem empty_output_iff_skipped
    (plat : platform) (reg : registry) (h : heap) (obj : Z)
    (nodump : option skip_set) (o : pyobj) :
  h !! obj = Some o ->
  (py_dump_object_info plat reg h obj nodump = inr [] <->
   exists nd, nodump = Some nd /\
     (obj = ss_id nd \/ (hashable h obj = true /\ obj ∈ ss_members nd))).
Proof.
  intros Ho. rewrite <- skipped_true_iff. unfold py_dump_object_info.
  destruct (skipped h obj nodump) eqn:Es; [done|].
  split; [|done]. intros Hres. apply dump_unskipped_inr in Hres.
  symmetry in Hres. apply app_eq_nil in Hres as [Hres _].
  by apply (dump_json_nonempty plat reg h obj o) in Hres.
Qed.

Lemma empty_output_iff_skipped_witness :
  list_heap !! 80 = Some (str_object "x") /\
  py_dump_object_info p64 ∅ list_heap 80 (Some skip_80) = inr [].
Proof.
  assert (list_heap !! 80 = Some (str_object "x")) as Ho
    by (vm_compute; reflexivity).
  split; [exact Ho|].
  apply (proj2 (empty_output_iff_skipped p64 ∅ list_heap 80 (Some skip_80)
                  (str_object "x") Ho)).
  exists skip_80. split; [reflexivity|]. right.
  split; [vm_compute; reflexivity|]. apply (bool_decide_unpack _). by vm_compute.
Defined.

(** * Further properties of the closure dump and the bulk dump *)

Section WalkFacts.
Variable plat : platform.
Variable reg : registry.
Variable h : heap.

(** What the loop returns is what was written before it, followed by the
    records of the objects it met. *)
Lemma dump_loop_records fuel : forall pending seen outf res,
  dump_loop plat reg h fuel pending seen outf = Some res ->
  exists met, res = outf ++ map (record_of plat reg h) met.
Proof.
  induction fuel as [|fuel IH]; intros pending seen outf res; [discriminate|].
  destruct pending as [|x pending _] using rev_ind.
  - simpl. intros [= <-]. exists []. by rewrite app_nil_r.
  - rewrite dump_loop_S. case_bool_decide; [apply IH|].
    intros [met ->]%IH. exists (x :: met). by rewrite <- app_assoc.
Qed.

Lemma address_of_records (l : list Z) :
  map rec_address (map (record_of plat reg h) l) = l.
Proof. induction l as [|a l IH]; simpl; by rewrite ?IH. Qed.

Lemma sum_filter_ext {A} (w : A -> nat) (P Q : A -> Prop)
    `{!forall x, Decision (P x)} `{!forall x, Decision (Q x)} (l : list A) :
  (forall x, x ∈ l -> P x <-> Q x) ->
  sum_list (map w (filter P l)) = sum_list (map w (filter Q l)).
Proof.
  induction l as [|a l IH]; intros Hext; [reflexivity|].
  rewrite !filter_cons.
  assert (P a <-> Q a) as Ha by (apply Hext; by left).
  assert (sum_list (map w (filter P l)) = sum_list (map w (filter Q l))) as E
    by (apply IH; intros x Hx; apply Hext; by right).
  destruct (decide (P a)), (decide (Q a)); simpl; try tauto; by rewrite E.
Qed.

(** Seeing one more live object takes its weight off. *)
Lemma sum_unseen_remove (l : list (Z * pyobj)) (x : Z) (o : pyobj) (seen : gset Z) :
  NoDup (l.*1) -> (x, o) ∈ l -> x ∉ seen ->
  (sum_list (map (fun ao => S (length (ob_referents ao.2)))
                 (filter (fun ao => ao.1 ∉ {[x]} ∪ seen) l))
   + S (length (ob_referents o))
   = sum_list (map (fun ao => S (length (ob_referents ao.2)))
                   (filter (fun ao => ao.1 ∉ seen) l)))%nat.
Proof.
  intros Hnd Hin Hx. induction l as [|[y o'] l IH]; [inversion Hin|].
  simpl in Hnd. apply NoDup_cons in Hnd as [Hy Hnd].
  rewrite !filter_cons. simpl.
  apply elem_of_cons in Hin as [[= <- <-]|Hin].
  - destruct (decide (x ∉ {[x]} ∪ seen)) as [Hn|_]; [set_solver|].
    destruct (decide (x ∉ seen)); [|done]. simpl.
    rewrite (sum_filter_ext _ (fun ao => ao.1 ∉ {[x]} ∪ seen)
               (fun ao => ao.1 ∉ seen) l); [lia|].
    intros [z oz] Hz. simpl.
    assert (z <> x) by (intros ->; apply Hy, list_elem_of_fmap; by exists (x, oz)).
    set_solver.
  - assert (y <> x) as Hne
      by (intros ->; apply Hy, list_elem_of_fmap; by exists (x, o)).
    specialize (IH Hnd Hin).
    destruct (decide (y ∉ {[x]} ∪ seen)), (decide (y ∉ seen)); simpl;
      try set_solver; lia.
Qed.

Lemma unseen_weight_remove x o (seen : gset Z) :
  h !! x = Some o -> x ∉ seen ->
  (unseen_weight h ({[x]} ∪ seen) + S (length (ob_referents o))
   = unseen_weight h seen)%nat.
Proof.
  intros Ho Hx. unfold unseen_weight. apply sum_unseen_remove; [|by apply elem_of_map_to_list|done].
  apply NoDup_fst_map_to_list.
Qed.

Lemma unseen_weight_empty : unseen_weight h ∅ = heap_weight h.
Proof.
  unfold unseen_weight, heap_weight. f_equal. f_equal.
  induction (map_to_list h) as [|a l IH]; [reflexivity|].
  rewrite filter_cons. destruct (decide (a.1 ∉ (∅ : gset Z))); [|set_solver].
  by rewrite IH.
Qed.

(** Every round makes [length pending + unseen_weight h seen] smaller. *)
Lemma dump_loop_within fuel : forall (pending : list Z) (seen : gset Z) outf,
  heap_closed h ->
  Forall (fun a => a ∈ dom h) pending ->
  (length pending + unseen_weight h seen < fuel)%nat ->
  exists res, dump_loop plat reg h fuel pending seen outf = Some res.
Proof.
  induction fuel as [|fuel IH]; intros pending seen outf Hc Hp Hm; [lia|].
  destruct pending as [|x pending _] using rev_ind; [by exists outf|].
  rewrite Forall_app, Forall_singleton in Hp. destruct Hp as [Hp Hx].
  rewrite length_app in Hm. simpl in Hm.
  rewrite dump_loop_S. case_bool_decide as Hseen.
  - apply IH; [done|done|lia].
  - apply elem_of_dom in Hx as [o Ho].
    pose proof (unseen_weight_remove x o seen Ho Hseen) as Hw.
    assert (get_referents h x = ob_referents o) as Er
      by (unfold get_referents; by rewrite Ho).
    apply IH; [done| |].
    + apply Forall_app. split; [done|].
      apply Forall_forall. intros b [_ Hb]%list_elem_of_filter.
      eapply get_referents_closed; [done| |exact Hb].
      apply elem_of_dom. eauto.
    + rewrite length_app.
      pose proof (length_filter (fun r => r ∉ {[x]} ∪ seen) (get_referents h x)).
      rewrite Er in *. lia.
Qed.

(** Unseen objects without referents, pending: they are written from the
    last to the first. *)
Lemma dump_loop_leaves : forall (pending : list Z) (seen : gset Z) outf,
  NoDup pending ->
  (forall a, a ∈ pending -> (a ∉ seen) /\ get_referents h a = []) ->
  dump_loop plat reg h (S (length pending)) pending seen outf
  = Some (outf ++ map (record_of plat reg h) (rev pending)).
Proof.
  induction pending as [|x pending IH] using rev_ind; intros seen outf Hnd Hp.
  - simpl. by rewrite app_nil_r.
  - apply NoDup_app in Hnd as (Hnd & Hdisj & _).
    destruct (Hp x) as [Hx Hrefs]; [set_solver|].
    rewrite length_app. simpl length.
    replace (S (length pending + 1)) with (S (S (length pending))) by lia.
    rewrite dump_loop_S. case_bool_decide; [done|].
    rewrite Hrefs. rewrite filter_nil, app_nil_r.
    rewrite IH; [|done|].
    + rewrite rev_app_distr. simpl. by rewrite <- app_assoc.
    + intros a Ha. destruct (Hp a) as [Ha1 Ha2]; [set_solver|].
      split; [|done]. specialize (Hdisj a Ha). set_solver.
Qed.

End WalkFacts.

(** X12. On a heap whose references point to live objects, the loop of
    [dump_all_referenced] from a live root ends within two rounds more than
    the number of objects plus the number of references of the heap. *)
Theorem closure_dump_within_walk_fuel
    (plat : platform) (reg : registry) (h : heap) (root : Z) (fuel : nat) :
  heap_closed h -> root ∈ dom h -> (walk_fuel h <= fuel)%nat ->
  exists out, dump_all_referenced plat reg h fuel root = Some out.
Proof.
  intros Hc Hroot Hfuel. unfold dump_all_referenced.
  apply dump_loop_within; [done|by apply Forall_singleton|].
  rewrite unseen_weight_empty. unfold walk_fuel in Hfuel. simpl. lia.
Qed.

Lemma closure_dump_within_walk_fuel_witness :
  (heap_closed cycle_heap /\ 1 ∈ dom cycle_heap /\
   (walk_fuel cycle_heap <= 8)%nat) /\
  exists out, dump_all_referenced p64 ∅ cycle_heap 8 1 = Some out.
Proof.
  assert (heap_closed cycle_heap) as Hc
    by (apply (bool_decide_unpack _); vm_compute; exact I).
  assert (1 ∈ dom cycle_heap) as Hroot
    by (apply (bool_decide_unpack _); vm_compute; exact I).
  assert (walk_fuel cycle_heap <= 8)%nat as Hfuel
    by (apply (bool_decide_unpack _); vm_compute; exact I).
  split; [by repeat split|].
  exact (closure_dump_within_walk_fuel p64 ∅ cycle_heap 1 8 Hc Hroot Hfuel).
Defined.

(** X13. Whenever [dump_all_referenced] returns, on any heap, what it wrote
    is the serialized record of the root first, then those of the other
    objects reachable from it, each once. *)
Theorem closure_dump_records_root_first
    (plat : platform) (reg : registry) (h : heap) (root : Z) (fuel : nat)
    (out : list record) :
  dump_all_referenced plat reg h fuel root = Some out ->
  exists others,
    out = map (record_of plat reg h) (root :: others) /\
    NoDup (root :: others) /\
    (forall a, a ∈ root :: others <-> reachable h root a).
Proof.
  intros Hrun.
  pose proof (dump_loop_correct plat reg h root fuel [root] ∅ [] out
                (walk_inv_init h root) Hrun) as [Hnd Hreach].
  destruct fuel as [|fuel]; [discriminate|].
  unfold dump_all_referenced in Hrun.
  change [root] with ([] ++ [root]) in Hrun. rewrite dump_loop_S in Hrun.
  case_bool_decide; [set_solver|].
  apply dump_loop_records in Hrun as [others ->].
  change (([] ++ [record_of plat reg h root])
          ++ map (record_of plat reg h) others)
    with (map (record_of plat reg h) (root :: others)) in *.
  rewrite address_of_records in Hnd.
  exists others. split; [done|]. split; [done|].
  intros a. rewrite <- Hreach. by rewrite address_of_records.
Qed.

Lemma closure_dump_records_root_first_witness :
  dump_all_referenced p64 ∅ cycle_heap 10 1
  = Some (map (record_of p64 ∅ cycle_heap) [1; 3; 2]) /\
  exists others,
    map (record_of p64 ∅ cycle_heap) [1; 3; 2]
    = map (record_of p64 ∅ cycle_heap) (1 :: others) /\
    NoDup (1 :: others) /\
    (forall a, a ∈ 1 :: others <-> reachable cycle_heap 1 a).
Proof.
  assert (dump_all_referenced p64 ∅ cycle_heap 10 1
          = Some (map (record_of p64 ∅ cycle_heap) [1; 3; 2])) as Hrun
    by (vm_compute; reflexivity).
  split; [exact Hrun|].
  exact (closure_dump_records_root_first p64 ∅ cycle_heap 1 10 _ Hrun).
Defined.

(** X14. When the referents of the root are distinct objects without
    referents of their own, [dump_all_referenced] writes the root and then
    its referents from the last to the first. *)
Theorem closure_dump_leaf_referents_last_first
    (plat : platform) (reg : registry) (h : heap) (root : Z) (refs : list Z) :
  get_referents h root = refs ->
  NoDup (root :: refs) ->
  (forall r, r ∈ refs -> get_referents h r = []) ->
  dump_all_referenced plat reg h (S (S (length refs))) root
  = Some (map (record_of plat reg h) (root :: rev refs)).
Proof.
  intros Hrefs Hnd Hleaf. apply NoDup_cons in Hnd as [Hroot Hnd].
  unfold dump_all_referenced.
  change [root] with ([] ++ [root]). rewrite dump_loop_S.
  case_bool_decide; [set_solver|]. rewrite Hrefs. simpl app.
  assert (filter (fun r => r ∉ ({[root]} ∪ ∅ : gset Z)) refs = refs) as ->.
  { clear Hleaf Hnd Hrefs. induction refs as [|r refs IH]; [done|].
    rewrite filter_cons. destruct (decide (r ∉ ({[root]} ∪ ∅ : gset Z))) as [|Hn].
    - f_equal. apply IH. set_solver.
    - exfalso. apply Hn. set_solver. }
  rewrite dump_loop_leaves; [done|done|].
  intros a Ha. split; [set_solver|by apply Hleaf].
Qed.

Lemma closure_dump_leaf_referents_last_first_witness :
  (get_referents list_heap 50 = [60; 70; 80] /\ NoDup [50; 60; 70; 80] /\
   (forall r, r ∈ [60; 70; 80] -> get_referents list_heap r = [])) /\
  dump_all_referenced p64 ∅ list_heap 5 50
  = Some (map (record_of p64 ∅ list_heap) [50; 80; 70; 60]).
Proof.
  assert (NoDup [50; 60; 70; 80]) as Hnd
    by (apply (bool_decide_unpack _); vm_compute; exact I).
  assert (forall r, r ∈ [60; 70; 80] -> get_referents list_heap r = []) as Hleaf.
  { intros r Hr. repeat (apply elem_of_cons in Hr as [->|Hr]; [reflexivity|]).
    inversion Hr. }
  split; [by repeat split|].
  exact (closure_dump_leaf_referents_last_first p64 ∅ list_heap 50 [60; 70; 80]
           eq_refl Hnd Hleaf).
Defined.

Section BulkFacts.
Variable plat : platform.
Variable reg : registry.
Variable h : heap.

Lemma fold_left_append_all {A B} (f : A -> list B) (l : list A) (init : list B) :
  fold_left (fun out x => out ++ f x) l init = init ++ concat (map f l).
Proof.
  revert init. induction l as [|x l IH]; intros init; simpl.
  - by rewrite app_nil_r.
  - by rewrite IH, <- app_assoc.
Qed.

Lemma dump_gc_objects_phases precached nodump_id gc_objects depth :
  dump_gc_objects plat reg h precached nodump_id gc_objects depth
  = map (record_of plat reg h) precached
    ++ concat (map (fun obj =>
                      dump_object_info plat reg h obj
                        (Some {| ss_id := nodump_id;
                                 ss_members := list_to_set precached |}) depth)
                   gc_objects).
Proof.
  unfold dump_gc_objects. rewrite !fold_left_append_all. simpl. f_equal.
  induction precached as [|a l IH]; [reflexivity|]. simpl. by rewrite IH.
Qed.

(** With every precached object hashable, what the skip set lets through
    is not precached. *)
Lemma not_in_skip_set_not_precached precached nodump_id a :
  Forall (fun p => hashable h p = true) precached ->
  in_skip_set h (Some {| ss_id := nodump_id;
                         ss_members := list_to_set precached |}) a = false ->
  a ∉ precached.
Proof.
  intros Hh Hin Ha. unfold in_skip_set, contains in Hin.
  rewrite Forall_forall in Hh. rewrite (Hh a Ha) in Hin. simpl in Hin.
  apply bool_decide_eq_false in Hin. apply Hin. by apply elem_of_list_to_set.
Qed.

Lemma skipped_false_not_in_skip_set obj nd :
  skipped h obj (Some nd) = false -> in_skip_set h (Some nd) obj = false.
Proof.
  unfold skipped, in_skip_set. case_bool_decide; [done|].
  destruct (contains h nd obj) as [[]|[|]]; done.
Qed.

Lemma dump_object_info_not_precached precached nodump_id obj depth :
  Forall (fun p => hashable h p = true) precached ->
  Forall (fun r => rec_address r ∉ precached)
    (dump_object_info plat reg h obj
       (Some {| ss_id := nodump_id; ss_members := list_to_set precached |}) depth).
Proof.
  intros Hh. unfold dump_object_info.
  destruct (skipped h obj _) eqn:Es; [constructor|].
  constructor.
  - simpl. eapply not_in_skip_set_not_precached; [done|].
    by apply skipped_false_not_in_skip_set.
  - destruct depth; [constructor|]. apply Forall_map, Forall_forall.
    intros r Hr. apply list_elem_of_In, filter_In in Hr as [_ Hr]. simpl.
    unfold inline_kept in Hr. apply andb_true_iff in Hr as [_ Hr%negb_true_iff].
    by eapply not_in_skip_set_not_precached.
Qed.

Lemma dump_object_info_depth_0 obj nodump :
  map rec_address (dump_object_info plat reg h obj nodump 0)
  = if skipped h obj nodump then [] else [obj].
Proof. unfold dump_object_info. by destruct (skipped h obj nodump). Qed.

Lemma bulk_depth_0_addresses nd (gc_objects : list Z) :
  map rec_address
    (concat (map (fun obj => dump_object_info plat reg h obj (Some nd) 0) gc_objects))
  = List.filter (fun obj => negb (skipped h obj (Some nd))) gc_objects.
Proof.
  induction gc_objects as [|a l IH]; [reflexivity|].
  cbn [map concat List.filter].
  rewrite map_app, IH, dump_object_info_depth_0.
  by destruct (skipped h a (Some nd)).
Qed.

Lemma sublist_List_filter {A} (f : A -> bool) (l : list A) :
  sublist (List.filter f l) l.
Proof.
  induction l as [|a l IH]; simpl; [constructor|].
  destruct (f a); by constructor.
Qed.

Lemma NoDup_List_filter {A} (f : A -> bool) (l : list A) :
  NoDup l -> NoDup (List.filter f l).
Proof.
  induction 1 as [|a l Ha Hl IH]; simpl; [constructor|].
  destruct (f a); [|done]. constructor; [|done].
  intros Hin. apply Ha. apply list_elem_of_In, filter_In in Hin as [Hin _].
  by apply list_elem_of_In.
Qed.

End BulkFacts.

(** X15. The bulk dump first writes the precached objects, in their
    order; with these hashable (as the [frozenset] made of them needs), no
    record after that carries the address of a precached object, at any
    depth. *)
Theorem bulk_dump_writes_precached_once
    (plat : platform) (reg : registry) (h : heap) (precached : list Z)
    (nodump_id : Z) (gc_objects : list Z) (recurse_depth : nat) :
  Forall (fun p => hashable h p = true) precached ->
  exists rest,
    dump_gc_objects plat reg h precached nodump_id gc_objects recurse_depth
    = map (record_of plat reg h) precached ++ rest /\
    Forall (fun r => rec_address r ∉ precached) rest.
Proof.
  intros Hh. rewrite dump_gc_objects_phases. eexists. split; [reflexivity|].
  apply Forall_concat, Forall_map, Forall_true. intros obj.
  by apply dump_object_info_not_precached.
Qed.

Lemma bulk_dump_writes_precached_once_witness :
  Forall (fun p => hashable shared_heap p = true) [10] /\
  exists rest,
    dump_gc_objects p64 ∅ shared_heap [10] 999 [100; 200] 1
    = map (record_of p64 ∅ shared_heap) [10] ++ rest /\
    Forall (fun r => rec_address r ∉ [10]) rest.
Proof.
  assert (Forall (fun p => hashable shared_heap p = true) [10]) as Hh
    by (repeat constructor).
  split; [exact Hh|].
  exact (bulk_dump_writes_precached_once p64 ∅ shared_heap [10] 999 [100; 200] 1 Hh).
Defined.

(** X16. With a recurse depth of 0, the bulk dump writes the precached
    objects, in the order and as many times as the list names them, and
    then objects of [gc.get_objects()] in their order: each of these at
    most once, none of them a precached object or the [frozenset].  So an
    address is written twice only when the precached list itself names the
    object twice. *)
Theorem bulk_dump_depth_0_writes_tracked_once
    (plat : platform) (reg : registry) (h : heap) (precached : list Z)
    (nodump_id : Z) (gc_objects : list Z) :
  Forall (fun p => hashable h p = true) precached ->
  NoDup gc_objects ->
  exists kept,
    map rec_address (dump_gc_objects plat reg h precached nodump_id gc_objects 0)
    = precached ++ kept /\
    sublist kept gc_objects /\
    NoDup kept /\
    Forall (fun a => (a ∉ precached) /\ a <> nodump_id) kept.
Proof.
  intros Hh Hg.
  set (nodump := {| ss_id := nodump_id; ss_members := list_to_set precached |}).
  set (kept := List.filter (fun obj => negb (skipped h obj (Some nodump)))
                 gc_objects).
  assert (map rec_address
            (dump_gc_objects plat reg h precached nodump_id gc_objects 0)
          = precached ++ kept) as E.
  { rewrite dump_gc_objects_phases, map_app, address_of_records.
    by rewrite bulk_depth_0_addresses. }
  assert (NoDup kept) as Hk by (by apply NoDup_List_filter).
  assert (Forall (fun a => (a ∉ precached) /\ a <> nodump_id) kept) as Hout.
  { apply Forall_forall. intros a Hin.
    apply list_elem_of_In, filter_In in Hin as [_ Hs].
    apply negb_true_iff in Hs. split.
    - apply skipped_false_not_in_skip_set in Hs.
      by apply (not_in_skip_set_not_precached h precached nodump_id a Hh Hs).
    - intros ->. unfold skipped in Hs. simpl in Hs.
      by rewrite bool_decide_eq_true_2 in Hs. }
  exists kept. split; [exact E|]. split; [apply sublist_List_filter|].
  split; [exact Hk|exact Hout].
Qed.

(** [None] named twice in the list: its record is written twice, and the
    tuples once each. *)
Lemma bulk_dump_depth_0_writes_tracked_once_witness :
  (Forall (fun p => hashable shared_heap p = true) [10; 300; 10] /\
   NoDup [100; 200; 300; 10]) /\
  exists kept,
    map rec_address
      (dump_gc_objects p64 ∅ shared_heap [10; 300; 10] 999 [100; 200; 300; 10] 0)
    = [10; 300; 10] ++ kept /\
    sublist kept [100; 200; 300; 10] /\
    NoDup kept /\
    Forall (fun a => (a ∉ [10; 300; 10]) /\ a <> 999) kept.
Proof.
  assert (Forall (fun p => hashable shared_heap p = true) [10; 300; 10]) as Hh
    by (repeat constructor).
  assert (NoDup [100; 200; 300; 10]) as Hg
    by (apply (bool_decide_unpack _); vm_compute; exact I).
  split; [by split|].
  destruct (bulk_dump_depth_0_writes_tracked_once p64 ∅ shared_heap
              [10; 300; 10] 999 [100; 200; 300; 10] Hh Hg)
    as (kept & E & Hsub & Hk & Hout).
  exists kept. by repeat split.
Defined.

Example bulk_dump_depth_0_repeated_precached :
  map rec_address
    (dump_gc_objects p64 ∅ shared_heap [10; 300; 10] 999 [100; 200; 300; 10] 0)
  = [10; 300; 10] ++ [100; 200].
Proof. vm_compute. reflexivity. Qed.

(** X18. Escaping goes through concatenation: the escape of two texts (or
    two byte strings) put together is the escape of the first without its
    closing quote followed by the escape of the second without its opening
    quote, so that the escape of a prefix, less its closing quote, is a
    prefix of the escape of the whole. *)
Theorem escape_of_concatenation (u v : text) (s t : list Byte.byte) :
  _text_to_json (u ++ v) = removelast (_text_to_json u) ++ tl (_text_to_json v) /\
  _bytes_to_json (s ++ t) = removelast (_bytes_to_json s) ++ tl (_bytes_to_json t).
Proof.
  assert (forall u v : text,
            _text_to_json (u ++ v)
            = removelast (_text_to_json u) ++ tl (_text_to_json v)) as Ht.
  { intros u' v'. rewrite !_text_to_json_pieces, map_app, concat_app.
    change (dquote :: concat (map text_piece u') ++ [dquote])
      with ((dquote :: concat (map text_piece u')) ++ [dquote]).
    rewrite removelast_last. simpl. by rewrite <- app_assoc. }
  split; [apply Ht|].
  by rewrite !_bytes_to_json_as_text, map_app, Ht.
Qed.
